(** * clone.js: the descriptor compiler and the delegation engine

    A shallow embedding of src/clone.js (revision 0.6.1, and [mix] from the
    0.6.0 revision kept in the same file).

    - Part 1 embeds [$object.describe], a pure function from a raw property
      map to a table of property descriptors.
    - Part 2 embeds the object store of the host (objects with a parent link,
      own data properties and an extensibility bit) and, on top of it,
      [clone], [create], the default constructor, [_applySuper], [copy] and
      [mix].

    Strings are sequences of 8-bit characters; numbers are integers plus
    [Infinity]. *)

From stdpp Require Import gmap strings list fin_maps sorting.
From Stdlib Require Import ZArith Ascii String Lia.

Open Scope string_scope.
Open Scope list_scope.

(** ** Values *)

Abbreviation loc := nat.

(** Bodies of user-written methods: what a method of a prototype may do with
    its receiver.  [SLog x] stands for [log.push(x)] on the log shared by the
    methods of a scenario. *)
Inductive atom :=
| AUndefined
| ANull
| ABool (b : bool)
| ANum (n : Z)
| AStr (s : string)
| AThis
| AArg (i : nat).

Inductive expr :=
| EAtom (a : atom)
| ESuper (methodName : string) (args : list atom)   (* this._applySuper(methodName, [args]) *)
| ESuperArguments                                   (* this._applySuper(arguments) *)
| EInvoke (methodName : string) (args : list atom). (* this[methodName](args) *)

Inductive stmt :=
| SLog (entry : string)
| SExpr (e : expr)
| SAssign (k : string) (e : expr)                   (* this[k] = e *)
| SThrow (e : expr)
| SReturn (e : expr).

(** A function is either written by the user (identified by [id], with its
    number of formal parameters) or a function of the framework, by its name:
    a member of [$object], or an accessor that [describe] generates. *)
Inductive fn :=
| FUser (id : string) (arity : nat) (body : list stmt)
| FNative (name : string).

Inductive val :=
| VUndefined
| VNull
| VBool (b : bool)
| VNum (n : Z)
| VInfinity
| VStr (s : string)
| VFun (f : fn)
| VObj (l : loc).

Definition typeof (v : val) : string :=
  match v with
  | VUndefined => "undefined"
  | VNull => "object"
  | VBool _ => "boolean"
  | VNum _ | VInfinity => "number"
  | VStr _ => "string"
  | VFun _ => "function"
  | VObj _ => "object"
  end.

Definition truthy (v : val) : bool :=
  match v with
  | VUndefined | VNull => false
  | VBool b => b
  | VNum n => negb (n =? 0)%Z
  | VInfinity => true
  | VStr s => negb (s =? "")
  | VFun _ | VObj _ => true
  end.

Definition fn_eqb (f g : fn) : bool :=
  match f, g with
  | FUser i _ _, FUser j _ _ => (i =? j)
  | FNative a, FNative b => (a =? b)
  | _, _ => false
  end.

(** [===] on values. *)
Definition strict_eqb (a b : val) : bool :=
  match a, b with
  | VUndefined, VUndefined | VNull, VNull | VInfinity, VInfinity => true
  | VBool x, VBool y => Bool.eqb x y
  | VNum x, VNum y => (x =? y)%Z
  | VStr x, VStr y => (x =? y)
  | VFun f, VFun g => fn_eqb f g
  | VObj x, VObj y => Nat.eqb x y
  | _, _ => false
  end.

(** * Part 1: [describe] *)

(** ** Strings *)

Definition first_char (s : string) : option ascii :=
  match s with
  | String c _ => Some c
  | EmptyString => None
  end.

(** [name[0] == c] *)
Definition starts_with (c : ascii) (s : string) : bool :=
  match first_char s with
  | Some a => Ascii.eqb a c
  | None => false
  end.

Fixpoint drop_prefix (p s : string) : option string :=
  match p, s with
  | EmptyString, _ => Some s
  | String a p', String b s' => if Ascii.eqb a b then drop_prefix p' s' else None
  | String _ _, EmptyString => None
  end.

(** The alternation [(get|set|const|hidden|final|writable)]. *)
Definition keywords : list string :=
  ["get"; "set"; "const"; "hidden"; "final"; "writable"].

Fixpoint first_keyword (kws : list string) (s : string) : option string :=
  match kws with
  | [] => None
  | k :: kws' =>
      match drop_prefix k s with
      | Some r => Some r
      | None => first_keyword kws' s
      end
  end.

Fixpoint skip_spaces (s : string) : string :=
  match s with
  | String " "%char r => skip_spaces r
  | _ => s
  end.

Fixpoint count_spaces (s : string) : nat :=
  match s with
  | String " "%char r => S (count_spaces r)
  | _ => 0
  end.

(** The first group of the pattern, on the text between the parentheses: one
    keyword, any number of spaces, and again, at least once. *)
Fixpoint flags_group (fuel : nat) (s : string) : bool :=
  match fuel with
  | O => false
  | S fuel' =>
      match first_keyword keywords s with
      | None => false
      | Some r =>
          match skip_spaces r with
          | EmptyString => true
          | r' => flags_group fuel' r'
          end
      end
  end.

(** Cut [s] at its first [c]. *)
Fixpoint break_at (c : ascii) (s : string) : option (string * string) :=
  match s with
  | EmptyString => None
  | String a r =>
      if Ascii.eqb a c then Some (EmptyString, r)
      else match break_at c r with
           | Some (l, r') => Some (String a l, r')
           | None => None
           end
  end.

(** [.] matches every character but a line terminator. *)
Definition line_terminator (c : ascii) : bool :=
  Ascii.eqb c "010"%char || Ascii.eqb c "013"%char.

Fixpoint all_dots (s : string) : bool :=
  match s with
  | EmptyString => true
  | String c r => negb (line_terminator c) && all_dots r
  end.

(** The tail of the pattern, one or more spaces and then one or more
    characters up to the end, on the text after the closing parenthesis: the
    spaces are taken greedily, and one of them is given back when nothing else
    is left. *)
Definition name_group (after : string) : option string :=
  match count_spaces after, skip_spaces after with
  | O, _ => None
  | S O, EmptyString => None
  | S (S _), EmptyString => Some " "
  | S _, rest => if all_dots rest then Some rest else None
  end.

(** [name.match(...)] with the pattern of line 150: the groups 1 (the flags)
    and 4 (the bare name) of a match. *)
Definition match_annotated (name : string) : option (string * string) :=
  match name with
  | String "("%char r =>
      match break_at ")"%char r with
      | Some (inside, after) =>
          if flags_group (String.length inside) inside then
            match name_group after with
            | Some bare => Some (inside, bare)
            | None => None
            end
          else None
      | None => None
      end
  | _ => None
  end.

(** [s.split(' ')] *)
Fixpoint split_space (s : string) : list string :=
  match s with
  | EmptyString => [EmptyString]
  | String c r =>
      if Ascii.eqb c " "%char then EmptyString :: split_space r
      else match split_space r with
           | h :: t => String c h :: t
           | [] => [String c EmptyString]
           end
  end.

(** [Array.prototype.sort] with the default comparison. *)
Fixpoint insert_sorted (x : string) (l : list string) : list string :=
  match l with
  | [] => [x]
  | y :: t => if String.leb x y then x :: l else y :: insert_sorted x t
  end.

Definition sort (l : list string) : list string :=
  foldr insert_sorted [] l.

(** ** Descriptors *)

(** The six names [describe] reads or writes on a descriptor, each present or
    not. *)
Record fields := mkFields {
  f_configurable : option val;
  f_enumerable : option val;
  f_writable : option val;
  f_value : option val;
  f_get : option val;
  f_set : option val
}.

Definition no_fields : fields := mkFields None None None None None None.

(** [{configurable: true, enumerable: true, writable: true}] *)
Definition all_true : fields :=
  mkFields (Some (VBool true)) (Some (VBool true)) (Some (VBool true)) None None None.

(** [Object.create($defaultDescriptor)]: own fields over the defaults. *)
Record PropertyDescriptor := mkDescriptor {
  own : fields;
  fallback : fields
}.

Definition new_descriptor (defaults : fields) : PropertyDescriptor :=
  mkDescriptor no_fields defaults.

(** What is found under a name: the own field, else the one of the defaults. *)
Definition lookup_field (sel : fields -> option val) (d : PropertyDescriptor) : option val :=
  match sel (own d) with
  | Some v => Some v
  | None => sel (fallback d)
  end.

(** [descriptor.name] *)
Definition read (sel : fields -> option val) (d : PropertyDescriptor) : val :=
  default VUndefined (lookup_field sel d).

Definition set_configurable (v : val) (d : PropertyDescriptor) : PropertyDescriptor :=
  let o := own d in
  mkDescriptor (mkFields (Some v) (f_enumerable o) (f_writable o) (f_value o) (f_get o) (f_set o))
               (fallback d).
Definition set_enumerable (v : val) (d : PropertyDescriptor) : PropertyDescriptor :=
  let o := own d in
  mkDescriptor (mkFields (f_configurable o) (Some v) (f_writable o) (f_value o) (f_get o) (f_set o))
               (fallback d).
Definition set_writable (v : val) (d : PropertyDescriptor) : PropertyDescriptor :=
  let o := own d in
  mkDescriptor (mkFields (f_configurable o) (f_enumerable o) (Some v) (f_value o) (f_get o) (f_set o))
               (fallback d).
Definition set_value (v : val) (d : PropertyDescriptor) : PropertyDescriptor :=
  let o := own d in
  mkDescriptor (mkFields (f_configurable o) (f_enumerable o) (f_writable o) (Some v) (f_get o) (f_set o))
               (fallback d).
Definition set_get (v : val) (d : PropertyDescriptor) : PropertyDescriptor :=
  let o := own d in
  mkDescriptor (mkFields (f_configurable o) (f_enumerable o) (f_writable o) (f_value o) (Some v) (f_set o))
               (fallback d).
Definition set_set (v : val) (d : PropertyDescriptor) : PropertyDescriptor :=
  let o := own d in
  mkDescriptor (mkFields (f_configurable o) (f_enumerable o) (f_writable o) (f_value o) (f_get o) (Some v))
               (fallback d).

(** The accessors [describe] generates for a string under [get] or [set]; both
    close over the variable [hiddenPropertyName] of the call. *)
Definition getter : val := VFun (FNative "getter").
Definition setter : val := VFun (FNative "setter").

(** The [switch] over one prefix. *)
Definition apply_prefix (value : val) (descriptor : PropertyDescriptor) (prefix : string) : PropertyDescriptor :=
  if prefix =? "const" then set_writable (VBool false) descriptor
  else if prefix =? "final" then
    set_writable (VBool false) (set_configurable (VBool false) descriptor)
  else if prefix =? "get" then set_get value descriptor
  else if prefix =? "hidden" then set_enumerable (VBool false) descriptor
  else if prefix =? "set" then set_set value descriptor
  else if prefix =? "writable" then set_writable (VBool true) descriptor
  else descriptor.

(** The table [descriptors], by its own keys (what the empty table inherits
    from the [Object.prototype] of the host is not part of it). *)
Abbreviation table := (gmap string PropertyDescriptor).

(** Lines 148-153: the sorted prefixes and the bare name of an annotated
    name. *)
Definition annotation (name : string) : option (list string * string) :=
  if starts_with "("%char name then
    match match_annotated name with
    | Some (flags, bare) => Some (sort (split_space flags), bare)
    | None => None
    end
  else None.

(** Lines 146-166: the name and the descriptor an entry works on. *)
Definition resolve (descriptors : table) (defaults : fields) (name : string) (value : val)
  : string * PropertyDescriptor :=
  let descriptor := new_descriptor defaults in
  match annotation name with
  | Some (prefixes, name) =>
      let descriptor :=
        match descriptors !! name with
        | Some d => d
        | None => descriptor
        end in
      (name, fold_left (apply_prefix value) prefixes descriptor)
  | None => (name, descriptor)
  end.

(** Lines 168-185: accessor or data form; the value the hiding rule sees. *)
Definition accessor_or_value (descriptor : PropertyDescriptor) (value : val) : PropertyDescriptor * val :=
  if truthy (read f_get descriptor) || truthy (read f_set descriptor) then
    let descriptor :=
      if typeof value =? "string" then
        if typeof (read f_get descriptor) =? "string"
        then set_get getter descriptor
        else set_set setter descriptor
      else descriptor in
    let descriptor := set_value VUndefined descriptor in
    (descriptor, if truthy (read f_get descriptor) then VUndefined else value)
  else (set_value value descriptor, value).

(** Lines 187-190. *)
Definition hide (hidingAllowed : bool) (name : string) (value : val) (descriptor : PropertyDescriptor)
  : PropertyDescriptor :=
  if hidingAllowed && (typeof value =? "function") || starts_with "_"%char name
  then set_enumerable (VBool false) descriptor
  else descriptor.

(** One turn of the loop over the raw properties. *)
Definition describe_entry (defaults : fields) (hidingAllowed : bool)
    (descriptors : table) (entry : string * val) : table :=
  let '(name, descriptor) := resolve descriptors defaults entry.1 entry.2 in
  let '(descriptor, value) := accessor_or_value descriptor entry.2 in
  <[name := hide hidingAllowed name value descriptor]> descriptors.

Definition default_descriptor (defaultDescriptor : option fields) : fields :=
  match defaultDescriptor with
  | Some d => d
  | None => all_true
  end.

Definition hiding_allowed (defaultDescriptor : option fields) : bool :=
  match defaultDescriptor with
  | Some d => negb (truthy (default VUndefined (f_enumerable d)))
  | None => true
  end.

(** [$object.describe(properties, defaultDescriptor)]; [properties] lists the
    enumerable entries of the raw map in the order of [for ... in]. *)
Definition describe (properties : list (string * val)) (defaultDescriptor : option fields)
  : table :=
  fold_left
    (describe_entry (default_descriptor defaultDescriptor) (hiding_allowed defaultDescriptor))
    properties ∅.

(** The attributes of a descriptor as the host reads them. *)
Definition enumerable_of (d : PropertyDescriptor) : bool := truthy (read f_enumerable d).
Definition writable_of (d : PropertyDescriptor) : bool := truthy (read f_writable d).
Definition configurable_of (d : PropertyDescriptor) : bool := truthy (read f_configurable d).

(** * Part 2: the object store and the delegation engine *)

(** ** The host's objects

    An object has a parent link, own data properties in the order they were
    added, and an extensibility bit.  Objects live in an arena; a new object
    takes the next free cell, so a parent always sits in an older cell than
    its children.  Accessor properties cannot be installed through
    [describe] (its records always carry [value], which the host refuses next
    to [get] or [set]), so the store holds data properties only. *)

Record property := mkProperty {
  p_value : val;
  p_writable : bool;
  p_enumerable : bool;
  p_configurable : bool
}.

Record object_cell := mkObject {
  proto : option loc;
  props : list (string * property);
  extensible : bool
}.

Record state := mkState {
  heap : list object_cell;
  log : list string
}.

Definition Object_prototype : loc := 0.
Definition dollar_object : loc := 1.

Fixpoint lookup_own (k : string) (ps : list (string * property)) : option property :=
  match ps with
  | [] => None
  | (n, p) :: ps' => if n =? k then Some p else lookup_own k ps'
  end.

(** Replace the property under [k], or add it at the end. *)
Fixpoint store_own (k : string) (p : property) (ps : list (string * property))
  : list (string * property) :=
  match ps with
  | [] => [(k, p)]
  | (n, q) :: ps' => if n =? k then (n, p) :: ps' else (n, q) :: store_own k p ps'
  end.

Definition getOwnProperty (h : list object_cell) (l : loc) (k : string) : option property :=
  match h !! l with
  | Some o => lookup_own k (props o)
  | None => None
  end.

(** The walk up the parent links.  [bound] exceeds [l]; a parent is followed
    only into an older cell. *)
Fixpoint find_property (bound : nat) (h : list object_cell) (l : loc) (k : string)
  : option property :=
  match bound with
  | O => None
  | S b =>
      match h !! l with
      | None => None
      | Some o =>
          match lookup_own k (props o) with
          | Some p => Some p
          | None =>
              match proto o with
              | Some parent => if (parent <? l)%nat then find_property b h parent k else None
              | None => None
              end
          end
      end
  end.

Definition getProperty (h : list object_cell) (l : loc) (k : string) : option property :=
  find_property (S l) h l k.

(** [k in l] *)
Definition hasProperty (h : list object_cell) (l : loc) (k : string) : bool :=
  bool_decide (is_Some (getProperty h l k)).

(** [l[k]] *)
Definition get (h : list object_cell) (l : loc) (k : string) : val :=
  match getProperty h l k with
  | Some p => p_value p
  | None => VUndefined
  end.

(** [v[k]] for any value; [None] where reading throws or is not modelled. *)
Definition get_of (h : list object_cell) (v : val) (k : string) : val :=
  match v with
  | VObj l => get h l k
  | _ => VUndefined
  end.

Definition inherited (h : list object_cell) (l : loc) (k : string) : option property :=
  match h !! l with
  | Some o =>
      match proto o with
      | Some parent => if (parent <? l)%nat then getProperty h parent k else None
      | None => None
      end
  | None => None
  end.

(** Whether [l[k] = v] takes effect (the code is not strict: where it does
    not, the assignment is dropped silently). *)
Definition canPut (h : list object_cell) (l : loc) (k : string) : bool :=
  match h !! l with
  | None => false
  | Some o =>
      match lookup_own k (props o) with
      | Some p => p_writable p
      | None =>
          match inherited h l k with
          | Some p => extensible o && p_writable p
          | None => extensible o
          end
      end
  end.

Definition set_props (o : object_cell) (ps : list (string * property)) : object_cell :=
  mkObject (proto o) ps (extensible o).

(** [l[k] = v] *)
Definition put (h : list object_cell) (l : loc) (k : string) (v : val) : list object_cell :=
  match h !! l with
  | None => h
  | Some o =>
      if canPut h l k then
        match lookup_own k (props o) with
        | Some p =>
            <[l := set_props o
                     (store_own k (mkProperty v (p_writable p) (p_enumerable p) (p_configurable p))
                        (props o))]> h
        | None =>
            <[l := set_props o (store_own k (mkProperty v true true true) (props o))]> h
        end
      else h
  end.

(** A data descriptor as the host sees it: each attribute given or not. *)
Record attributes := mkAttributes {
  a_value : option val;
  a_writable : option bool;
  a_enumerable : option bool;
  a_configurable : option bool
}.

Definition attributes_of (p : property) : attributes :=
  mkAttributes (Some (p_value p)) (Some (p_writable p)) (Some (p_enumerable p))
               (Some (p_configurable p)).

Definition agrees {A} (eqb : A -> A -> bool) (given : option A) (current : A) : bool :=
  match given with
  | Some x => eqb x current
  | None => true
  end.

(** The host's check of a new descriptor against an existing own property. *)
Definition admissible (a : attributes) (current : property) : bool :=
  if p_configurable current then true
  else
    negb (default false (a_configurable a))
    && agrees Bool.eqb (a_enumerable a) (p_enumerable current)
    && (p_writable current
        || (negb (default false (a_writable a))
            && agrees strict_eqb (a_value a) (p_value current))).

Definition merge (a : attributes) (current : property) : property :=
  mkProperty (default (p_value current) (a_value a))
             (default (p_writable current) (a_writable a))
             (default (p_enumerable current) (a_enumerable a))
             (default (p_configurable current) (a_configurable a)).

Definition fresh_property (a : attributes) : property :=
  mkProperty (default VUndefined (a_value a)) (default false (a_writable a))
             (default false (a_enumerable a)) (default false (a_configurable a)).

(** [Object.defineProperty(l, k, a)]; [None] is the host's TypeError. *)
Definition defineOwnProperty (h : list object_cell) (l : loc) (k : string) (a : attributes)
  : option (list object_cell) :=
  match h !! l with
  | None => None
  | Some o =>
      match lookup_own k (props o) with
      | None =>
          if extensible o
          then Some (<[l := set_props o (store_own k (fresh_property a) (props o))]> h)
          else None
      | Some current =>
          if admissible a current
          then Some (<[l := set_props o (store_own k (merge a current) (props o))]> h)
          else None
      end
  end.

Definition getPrototypeOf (h : list object_cell) (l : loc) : option val :=
  match h !! l with
  | Some o =>
      match proto o with
      | Some parent => Some (VObj parent)
      | None => Some VNull
      end
  | None => None
  end.

Definition getOwnPropertyNames (h : list object_cell) (l : loc) : list string :=
  match h !! l with
  | Some o => (props o).*1
  | None => []
  end.

Definition seal_property (np : string * property) : string * property :=
  (np.1, mkProperty (p_value np.2) (p_writable np.2) (p_enumerable np.2) false).

Definition freeze_property (np : string * property) : string * property :=
  (np.1, mkProperty (p_value np.2) false (p_enumerable np.2) false).

(** [Object.seal(l)] *)
Definition seal (h : list object_cell) (l : loc) : list object_cell :=
  match h !! l with
  | Some o => <[l := mkObject (proto o) (seal_property <$> props o) false]> h
  | None => h
  end.

(** [Object.freeze(l)] *)
Definition freeze (h : list object_cell) (l : loc) : list object_cell :=
  match h !! l with
  | Some o => <[l := mkObject (proto o) (freeze_property <$> props o) false]> h
  | None => h
  end.

(** [Object.preventExtensions(l)] *)
Definition preventExtensions (h : list object_cell) (l : loc) : list object_cell :=
  match h !! l with
  | Some o => <[l := mkObject (proto o) (props o) false]> h
  | None => h
  end.

Definition isSealed (h : list object_cell) (l : loc) : bool :=
  match h !! l with
  | Some o => negb (extensible o) && forallb (fun np => negb (p_configurable np.2)) (props o)
  | None => false
  end.

(** [Object.create(parent)]: the new object and the store holding it. *)
Definition allocate (parent : option loc) (h : list object_cell) : loc * list object_cell :=
  (List.length h, h ++ [mkObject parent [] true]).

(** ** Outcomes *)

Inductive outcome (A : Type) :=
| Normal (a : A) (st : state)
| Throw (e : val) (st : state)
| OutOfFuel
| Unmodelled.
Arguments Normal {A} a st.
Arguments Throw {A} e st.
Arguments OutOfFuel {A}.
Arguments Unmodelled {A}.

Definition bind {A B} (m : outcome A) (k : A -> state -> outcome B) : outcome B :=
  match m with
  | Normal a st => k a st
  | Throw e st => Throw e st
  | OutOfFuel => OutOfFuel
  | Unmodelled => Unmodelled
  end.

Notation "'let!' ( x , s ) := m 'in' k" := (bind m (fun x s => k))
  (at level 10, x name, s name, m at level 100, k at level 200).

Definition TypeError : val := VStr "TypeError".

Definition with_heap (st : state) (h : list object_cell) : state := mkState h (log st).

Definition present {A} (o : option A) : bool :=
  match o with
  | Some _ => true
  | None => false
  end.

(** ** From the store to [describe] and back *)

(** The names [for (name in l)] visits: the enumerable ones, own first, a name
    once. *)
Fixpoint for_in (bound : nat) (h : list object_cell) (l : loc) (seen : list string)
  : list string :=
  match bound with
  | O => []
  | S b =>
      match h !! l with
      | None => []
      | Some o =>
          let visible :=
            filter (fun np => p_enumerable np.2 = true /\ np.1 ∉ seen) (props o) in
          visible.*1 ++
          match proto o with
          | Some parent =>
              if (parent <? l)%nat then for_in b h parent (seen ++ (props o).*1) else []
          | None => []
          end
      end
  end.

(** The raw map a value is when [describe] loops over it. *)
Definition raw_properties (h : list object_cell) (properties : val)
  : option (list (string * val)) :=
  match properties with
  | VObj l => Some ((fun n => (n, get h l n)) <$> for_in (S l) h l [])
  | VStr EmptyString => Some []
  | VStr _ => None
  | _ => Some []
  end.

Definition field (h : list object_cell) (l : loc) (k : string) : option val :=
  p_value <$> getProperty h l k.

Definition fields_of (h : list object_cell) (l : loc) : fields :=
  mkFields (field h l "configurable") (field h l "enumerable") (field h l "writable")
           (field h l "value") (field h l "get") (field h l "set").

(** [$object.describe(properties, defaultDescriptor)] on values of the store. *)
Definition describe_values (properties defaultDescriptor : val) (st : state) : outcome table :=
  match raw_properties (heap st) properties with
  | None => Unmodelled
  | Some entries =>
      if truthy defaultDescriptor then
        match defaultDescriptor with
        | VObj l => Normal (describe entries (Some (fields_of (heap st) l))) st
        | VFun _ => Normal (describe entries (Some no_fields)) st
        | _ =>
            match entries with
            | [] => Normal ∅ st
            | _ => Throw TypeError st
            end
        end
      else Normal (describe entries None) st
  end.

(** The host's reading of a descriptor object. *)
Inductive converted :=
| Data (a : attributes)
| Accessor
| Invalid.

Definition callable_or_undefined (o : option val) : bool :=
  match o with
  | Some (VFun _) | Some VUndefined | None => true
  | Some _ => false
  end.

Definition ToPropertyDescriptor (d : PropertyDescriptor) : converted :=
  let g := lookup_field f_get d in
  let s := lookup_field f_set d in
  if negb (callable_or_undefined g) || negb (callable_or_undefined s) then Invalid
  else if present g || present s then
    if present (lookup_field f_value d) || present (lookup_field f_writable d)
    then Invalid else Accessor
  else Data (mkAttributes (lookup_field f_value d)
                          (truthy <$> lookup_field f_writable d)
                          (truthy <$> lookup_field f_enumerable d)
                          (truthy <$> lookup_field f_configurable d)).

Fixpoint convert_all (ds : list (string * PropertyDescriptor))
  : option (option (list (string * attributes))) :=
  match ds with
  | [] => Some (Some [])
  | (n, d) :: ds' =>
      match ToPropertyDescriptor d with
      | Invalid => Some None
      | Accessor => None
      | Data a =>
          match convert_all ds' with
          | Some (Some r) => Some (Some ((n, a) :: r))
          | other => other
          end
      end
  end.

Fixpoint define_all (l : loc) (ds : list (string * attributes)) (st : state) : outcome unit :=
  match ds with
  | [] => Normal tt st
  | (n, a) :: ds' =>
      match defineOwnProperty (heap st) l n a with
      | Some h => define_all l ds' (with_heap st h)
      | None => Throw TypeError st
      end
  end.

(** [Object.defineProperties(l, descriptors)] *)
Definition Object_defineProperties (l : loc) (descriptors : table) (st : state) : outcome unit :=
  match convert_all (map_to_list descriptors) with
  | None => Unmodelled
  | Some None => Throw TypeError st
  | Some (Some ds) => define_all l ds st
  end.

(** [Object.defineProperty(target, k, a)] *)
Definition Object_defineProperty (target : val) (k : string) (a : attributes) (st : state)
  : outcome unit :=
  match target with
  | VObj l =>
      match defineOwnProperty (heap st) l k a with
      | Some h => Normal tt (with_heap st h)
      | None => Throw TypeError st
      end
  | _ => Throw TypeError st
  end.

(** [Object.create(parent, descriptors)] *)
Definition Object_create (parent : val) (descriptors : option table) (st : state) : outcome loc :=
  let build (p : option loc) :=
    let '(l, h) := allocate p (heap st) in
    match descriptors with
    | None => Normal l (with_heap st h)
    | Some ds => let! (_u, st') := Object_defineProperties l ds (with_heap st h) in Normal l st'
    end in
  match parent with
  | VObj p => build (Some p)
  | VNull => build None
  | _ => Throw TypeError st
  end.

(** ** The delegation engine

    Calls that the framework makes on the receiver by the name of one of its
    own helpers ([this.defineProperty], [this.defineProperties], [this.seal],
    [this.clone]) are taken to reach that helper.  The constructor in
    [create] and the method in [_applySuper] are looked up in the store. *)

(** The function [clone] puts under [constructor] when given a string. *)
Definition CustomType : fn := FUser "CustomType" 0 [SReturn ESuperArguments].

(** [$object.clone(properties, defaultDescriptor)] on receiver [this]. *)
Definition clone (this : loc) (arguments : list val) (st : state) : outcome val :=
  match arguments with
  | [] => let! (obj, st) := Object_create (VObj this) None st in Normal (VObj obj) st
  | _ =>
      let! (descriptors, st) :=
        describe_values (nth 0 arguments VUndefined) (nth 1 arguments VUndefined) st in
      let! (descriptors, st) :=
        match descriptors !! "constructor" with
        | Some d =>
            let constructor := read f_value d in
            let d := if typeof constructor =? "string" then set_value (VFun CustomType) d else d in
            (* descriptors.constructor.value.prototype = this *)
            match read f_value d with
            | VUndefined | VNull => Throw TypeError st
            | VObj f =>
                Normal (<["constructor" := d]> descriptors)
                       (with_heap st (put (heap st) f "prototype" (VObj this)))
            | _ => Normal (<["constructor" := d]> descriptors) st
            end
        | None => Normal descriptors st
        end in
      let! (obj, st) := Object_create (VObj this) (Some descriptors) st in
      Normal (VObj obj) st
  end.

(** [this.defineProperties(properties, defaultDescriptor)] *)
Definition defineProperties (this : loc) (properties defaultDescriptor : val) (st : state)
  : outcome unit :=
  let! (descriptors, st) := describe_values properties defaultDescriptor st in
  Object_defineProperties this descriptors st.

(** The first argument of [_applySuper]: a string, an Array, or anything else
    (nothing, or the [arguments] object of the caller). *)
Inductive super_arg :=
| ArgString (s : string)
| ArgArray (a : list val)
| ArgOther.

Definition number_of_parameters (name : string) : nat :=
  if name =? "clone" then 2 else if name =? "create" then 2
  else if name =? "CloneObject" then 2 else if name =? "describe" then 2
  else if name =? "_applySuper" then 2 else if name =? "_callSuper" then 3
  else if name =? "createSuperSafeCallback" then 2 else if name =? "getState" then 1
  else if name =? "copy" then 4 else if name =? "deepClone" then 2
  else if name =? "do" then 4 else if name =? "can" then 2
  else if name =? "cant" then 1 else if name =? "getOwnPropertyDescriptor" then 1
  else if name =? "defineProperties" then 2 else if name =? "defineProperty" then 2
  else 0.

(** [f.length] *)
Definition fn_length (f : fn) : nat :=
  match f with
  | FUser _ arity _ => arity
  | FNative name => number_of_parameters name
  end.

(** [parentsLevel--]: whether the old value was truthy, and the new value. *)
Definition post_decrement (v : val) : option (bool * val) :=
  match v with
  | VNum n => Some (negb (n =? 0)%Z, VNum (n - 1))
  | VInfinity => Some (true, VInfinity)
  | VUndefined => Some (false, VUndefined)
  | VNull => Some (false, VNum (-1))
  | VBool b => Some (b, VNum (if b then 0 else -1))
  | _ => None
  end.

(** [v != s] for a string [s]. *)
Definition loose_neq_string (v : val) (s : string) : bool :=
  match v with
  | VStr t => negb (t =? s)
  | _ => true
  end.

Definition eval_atom (this : loc) (arguments : list val) (a : atom) : val :=
  match a with
  | AUndefined => VUndefined
  | ANull => VNull
  | ABool b => VBool b
  | ANum n => VNum n
  | AStr s => VStr s
  | AThis => VObj this
  | AArg i => nth i arguments VUndefined
  end.

Definition push (entry : string) (st : state) : state :=
  mkState (heap st) (log st ++ [entry]).

Section Engine.

(** What calling a function does, one level of nesting down. *)
Variable call : fn -> loc -> list val -> state -> outcome val.

(** [f.apply(this, arguments)] for whatever [f] is. *)
Definition apply (f : val) (this : loc) (arguments : list val) (st : state) : outcome val :=
  match f with
  | VFun g => call g this arguments st
  | _ => Throw TypeError st
  end.

(** Lines 218-229: the cursor is created on the first dispatch. *)
Definition init_super (this : loc) (st : state) : outcome unit :=
  if hasProperty (heap st) this "__super__" then Normal tt st
  else
    match getPrototypeOf (heap st) this with
    | Some (VObj parent) =>
        match getPrototypeOf (heap st) parent with
        | Some grandparent =>
            Object_defineProperty (VObj this) "__super__"
              (mkAttributes (Some grandparent) (Some true) None (Some true)) st
        | None => Unmodelled
        end
    | Some _ => Throw TypeError st
    | None => Unmodelled
    end.

(** [this._applySuper(methodName, args)] *)
Definition _applySuper (this : loc) (methodName : super_arg) (args : option (list val))
    (st : state) : outcome val :=
  let '(methodName, args) :=
    match methodName with
    | ArgString s => (s, args)
    | ArgArray a => ("constructor", Some a)
    | ArgOther => ("constructor", args)
    end in
  let! (_u, st) := init_super this st in
  (* save super *)
  let savedSuper := get (heap st) this "__super__" in
  (* set super to next by prototype chain *)
  match savedSuper with
  | VObj saved =>
      match getPrototypeOf (heap st) saved with
      | Some next =>
          let st := with_heap st (put (heap st) this "__super__" next) in
          (* apply method *)
          let! (returned, st) :=
            apply (get (heap st) saved methodName) this (default [] args) st in
          (* restore super *)
          Normal returned (with_heap st (put (heap st) this "__super__" savedSuper))
      | None => Unmodelled
      end
  | VFun _ => Unmodelled
  | _ => Throw TypeError st
  end.

Definition eval (this : loc) (arguments : list val) (e : expr) (st : state) : outcome val :=
  match e with
  | EAtom a => Normal (eval_atom this arguments a) st
  | ESuper methodName args =>
      _applySuper this (ArgString methodName) (Some (eval_atom this arguments <$> args)) st
  | ESuperArguments => _applySuper this ArgOther None st
  | EInvoke methodName args =>
      apply (get (heap st) this methodName) this (eval_atom this arguments <$> args) st
  end.

(** The body of a user-written function. *)
Fixpoint exec (this : loc) (arguments : list val) (body : list stmt) (st : state)
  : outcome val :=
  match body with
  | [] => Normal VUndefined st
  | s :: rest =>
      match s with
      | SLog entry => exec this arguments rest (push entry st)
      | SExpr e => let! (_v, st) := eval this arguments e st in exec this arguments rest st
      | SAssign k e =>
          let! (v, st) := eval this arguments e st in
          exec this arguments rest (with_heap st (put (heap st) this k v))
      | SThrow e => let! (v, st) := eval this arguments e st in Throw v st
      | SReturn e => eval this arguments e st
      end
  end.

(** [$object.create(...)] on receiver [this]. *)
Definition create (this : loc) (arguments : list val) (st : state) : outcome val :=
  let! (obj, st) := clone this [] st in
  match obj with
  | VObj o =>
      let! (returned, st) := apply (get (heap st) o "constructor") o arguments st in
      Normal (if truthy returned then returned else obj) st
  | _ => Unmodelled
  end.

(** The default constructor. *)
Definition CloneObject (this : loc) (arguments : list val) (st : state) : outcome val :=
  let properties := nth 0 arguments VUndefined in
  let defaultDescriptor := nth 1 arguments VUndefined in
  let! (_u, st) :=
    if truthy properties then defineProperties this properties defaultDescriptor st
    else Normal tt st in
  if strict_eqb (get (heap st) this "constructor") (VFun (FNative "CloneObject"))
  then Normal VUndefined (with_heap st (seal (heap st) this))
  else Normal VUndefined st.

(** [$object.do(methodName, args, withObj)] *)
Definition do_ (methodName : string) (args : list val) (withObj : loc) (st : state)
  : outcome val :=
  let theirs := get (heap st) withObj methodName in
  let ours := get (heap st) dollar_object methodName in
  match theirs, ours with
  | VFun f, VFun g =>
      if (fn_length f =? fn_length g)%nat then call f withObj args st
      else call g withObj args st
  | VFun f, VStr s =>
      if (fn_length f =? String.length s)%nat then call f withObj args st
      else Throw TypeError st
  | _, VObj _ => Unmodelled
  | _, VFun g => call g withObj args st
  | _, _ => Throw TypeError st
  end.

(** The loop over the own properties of [source], shared by [copy],
    [deepCopy] and [deepClone]: [nested] is the function applied to an
    object-valued property, if any; [all] tells whether the other
    properties are defined on the target too. *)
Fixpoint define_each (nested : option val) (all : bool) (source : loc) (target : val)
    (names : list string) (st : state) : outcome unit :=
  match names with
  | [] => Normal tt st
  | name :: names' =>
      match getOwnProperty (heap st) source name with
      | None => Unmodelled
      | Some p =>
          let descriptor := attributes_of p in
          let inner := get (heap st) source name in
          let continue st := define_each nested all source target names' st in
          match nested with
          | Some f =>
              if typeof inner =? "object" then
                match inner with
                | VObj o =>
                    let! (copied, st) := apply f o [] st in
                    let! (_u, st) :=
                      Object_defineProperty target name
                        (mkAttributes (Some copied) (a_writable descriptor)
                           (a_enumerable descriptor) (a_configurable descriptor)) st in
                    continue st
                | _ => Unmodelled
                end
              else if all then
                let! (_u, st) := Object_defineProperty target name descriptor st in continue st
              else continue st
          | None =>
              if all then
                let! (_u, st) := Object_defineProperty target name descriptor st in continue st
              else continue st
          end
      end
  end.

(** [$object.deepCopy()] *)
Definition deepCopy (this : loc) (arguments : list val) (st : state) : outcome val :=
  let! (obj, st) :=
    match arguments with
    | [] =>
        let! (o, st) := Object_create (VObj Object_prototype) None st in Normal (VObj o) st
    | _ => do_ "copy" arguments this st
    end in
  let! (_u, st) :=
    define_each (Some (VFun (FNative "deepCopy"))) true this obj
      (getOwnPropertyNames (heap st) this) st in
  Normal obj st.

(** [$object.deepClone(properties, defaultDescriptor)] *)
Definition deepClone (this : loc) (arguments : list val) (st : state) : outcome val :=
  let! (obj, st) := do_ "clone" arguments this st in
  let! (_u, st) :=
    define_each (Some (VFun (FNative "deepClone"))) false this obj
      (getOwnPropertyNames (heap st) this) st in
  Normal obj st.

(** Lines 379-384: the arguments are sorted into the four parameters by
    their type.  A parameter that was passed shares its cell with the
    matching entry of [arguments]. *)
Fixpoint sort_arguments (count : nat) (i : nat) (arguments params : list val) : list val :=
  match count with
  | O => params
  | S count' =>
      let value :=
        if (i <? 4)%nat then nth i params VUndefined else nth i arguments VUndefined in
      let params :=
        if typeof value =? "string" then <[0 := value]> params
        else if typeof value =? "object" then <[1 := value]> params
        else if typeof value =? "number" then <[2 := value]> params
        else if typeof value =? "boolean" then <[3 := value]> params
        else params in
      sort_arguments count' (S i) arguments params
  end.

(** Lines 400-424: one level of the source per turn. *)
Fixpoint copy_levels (bound : nat) (deepMethod mixParents sourceObj updateObj parentsLevel : val)
    (st : state) : outcome unit :=
  match bound with
  | O => Unmodelled
  | S b =>
      match sourceObj with
      | VObj source =>
          let ownPropertyNames := getOwnPropertyNames (heap st) source in
          let! (updateObj, st) :=
            if negb (truthy mixParents) && negb (List.length ownPropertyNames =? 0)%nat then
              match updateObj with
              | VObj u => do_ "clone" [] u st
              | _ => Throw TypeError st
              end
            else Normal updateObj st in
          let nested :=
            if truthy deepMethod then
              match deepMethod with
              | VStr m => Some (Some (get (heap st) dollar_object m))
              | _ => None
              end
            else Some None in
          match nested with
          | None => Unmodelled
          | Some nested =>
              let! (_u, st) := define_each nested true source updateObj ownPropertyNames st in
              match getPrototypeOf (heap st) source, post_decrement parentsLevel with
              | Some next, Some (more, parentsLevel) =>
                  if more && negb (strict_eqb next (VObj Object_prototype)) then
                    match next with
                    | VObj parent =>
                        if (parent <? source)%nat
                        then copy_levels b deepMethod mixParents next updateObj parentsLevel st
                        else Unmodelled
                    | _ => copy_levels b deepMethod mixParents next updateObj parentsLevel st
                    end
                  else Normal tt st
              | _, _ => Unmodelled
              end
          end
      | VFun _ => Unmodelled
      | _ => Throw TypeError st
      end
  end.

(** [$object.copy(deepMethod, rootPrototype, parentsLevel, mixParents)] *)
Definition copy (this : loc) (arguments : list val) (st : state) : outcome val :=
  let params :=
    sort_arguments (List.length arguments) 0 arguments
      [nth 0 arguments VUndefined; nth 1 arguments VUndefined;
       nth 2 arguments VUndefined; nth 3 arguments VUndefined] in
  let deepMethod := nth 0 params VUndefined in
  let rootPrototype := nth 1 params VUndefined in
  let parentsLevel := nth 2 params VUndefined in
  let mixParents := nth 3 params VUndefined in
  let deepMethod :=
    if loose_neq_string deepMethod "deepCopy" || loose_neq_string deepMethod "deepClone"
    then VNull else deepMethod in
  match rootPrototype with
  | VFun _ => Unmodelled
  | _ =>
      let rootPrototype :=
        if typeof rootPrototype =? "undefined" then VObj dollar_object else rootPrototype in
      let sourceObj := VObj this in
      let! (newObj, st) := Object_create rootPrototype None st in
      let updateObj := VObj newObj in
      let! (_u, st) :=
        copy_levels (S this) deepMethod mixParents sourceObj updateObj parentsLevel st in
      Normal (VObj newObj) st
  end.

Definition run_native (name : string) (this : loc) (arguments : list val) (st : state)
  : outcome val :=
  if name =? "CloneObject" then CloneObject this arguments st
  else if name =? "clone" then clone this arguments st
  else if name =? "create" then create this arguments st
  else if name =? "copy" then copy this arguments st
  else if name =? "deepCopy" then deepCopy this arguments st
  else if name =? "deepClone" then deepClone this arguments st
  else if name =? "seal" then Normal (VObj this) (with_heap st (seal (heap st) this))
  else if name =? "freeze" then Normal (VObj this) (with_heap st (freeze (heap st) this))
  else if name =? "preventExtensions"
  then Normal (VObj this) (with_heap st (preventExtensions (heap st) this))
  else if name =? "isSealed" then Normal (VBool (isSealed (heap st) this)) st
  else if name =? "getPrototype" then
    match getPrototypeOf (heap st) this with
    | Some v => Normal v st
    | None => Unmodelled
    end
  else Unmodelled.

End Engine.

(** Calling a function, to a depth of [fuel] nested calls. *)
Fixpoint call (fuel : nat) (f : fn) (this : loc) (arguments : list val) (st : state)
  : outcome val :=
  match fuel with
  | O => OutOfFuel
  | S fuel' =>
      match f with
      | FUser _ _ body => exec (call fuel') this arguments body st
      | FNative name => run_native (call fuel') name this arguments st
      end
  end.


(** ** [mix] (revision 0.6.0) *)

(** The first argument of [mix]: an Array of objects, or one object. *)
Inductive mix_arg :=
| MixArray (objects : list val)
| MixObject (obj : val).

(** Lines 1066-1069: the object and as many of its parents as asked for. *)
Fixpoint with_parents (bound : nat) (obj parentsLevel : val) (st : state)
  : outcome (list val) :=
  match bound with
  | O => Unmodelled
  | S b =>
      match post_decrement parentsLevel with
      | None => Unmodelled
      | Some (false, _) => Normal [obj] st
      | Some (true, parentsLevel) =>
          match obj with
          | VObj l =>
              match getPrototypeOf (heap st) l with
              | Some next =>
                  if strict_eqb next (VObj Object_prototype) then Normal [obj] st
                  else
                    match next with
                    | VObj parent =>
                        if (parent <? l)%nat then
                          let! (rest, st) := with_parents b next parentsLevel st in
                          Normal (obj :: rest) st
                        else Unmodelled
                    | _ =>
                        let! (rest, st) := with_parents b next parentsLevel st in
                        Normal (obj :: rest) st
                    end
              | None => Unmodelled
              end
          | VFun _ => Unmodelled
          | _ => Throw TypeError st
          end
      end
  end.

(** Lines 1090-1094: every own property of [source] is defined on the
    target. *)
Fixpoint copy_own (source updateObj : loc) (names : list string) (st : state) : outcome unit :=
  match names with
  | [] => Normal tt st
  | name :: names' =>
      match getOwnProperty (heap st) source name with
      | None => Unmodelled
      | Some p =>
          let! (_u, st) := Object_defineProperty (VObj updateObj) name (attributes_of p) st in
          copy_own source updateObj names' st
      end
  end.

(** Lines 1076-1095: the loop over the reversed list. *)
Fixpoint mix_each (copyNesting : val) (mixedObjects : list val) (updateObj : loc) (st : state)
  : outcome val :=
  match mixedObjects with
  | [] => Normal (VObj updateObj) st
  | obj :: rest =>
      match obj with
      | VObj source =>
          let ownPropertyNames := getOwnPropertyNames (heap st) source in
          let! (target, st) :=
            if truthy copyNesting && negb (List.length ownPropertyNames =? 0)%nat
            then clone updateObj [] st
            else Normal (VObj updateObj) st in
          match target with
          | VObj updateObj =>
              let! (_u, st) := copy_own source updateObj ownPropertyNames st in
              mix_each copyNesting rest updateObj st
          | _ => Unmodelled
          end
      | VFun _ => Unmodelled
      | _ => Throw TypeError st
      end
  end.

(** [this.mix(objectToMix, parentsLevel, copyNesting)] *)
Definition mix (this : loc) (objectToMix : mix_arg) (parentsLevel copyNesting : val)
    (st : state) : outcome val :=
  let '(parentsLevel, copyNesting) :=
    if strict_eqb copyNesting VUndefined then
      if typeof parentsLevel =? "boolean" then (VNum 0, parentsLevel)
      else (parentsLevel, VBool true)
    else (parentsLevel, copyNesting) in
  let! (mixedObjects, st) :=
    match objectToMix with
    | MixArray objects => Normal objects st
    | MixObject obj =>
        let bound := match obj with VObj l => S l | _ => 1 end in
        with_parents bound obj parentsLevel st
    end in
  mix_each copyNesting (reverse mixedObjects) this st.

(** ** The store at start-up: [Object.prototype] and [$object]

    The members of [$object], after [$object.defineProperties($object)] has
    made them non-enumerable. *)
Definition member (name : string) (f : string) : string * property :=
  (name, mkProperty (VFun (FNative f)) true false true).

Definition dollar_object_members : list (string * property) :=
  [ member "clone" "clone"; member "create" "create"; member "constructor" "CloneObject";
    member "describe" "describe"; member "_applySuper" "_applySuper";
    member "_callSuper" "_callSuper";
    member "createSuperSafeCallback" "createSuperSafeCallback";
    member "getState" "getState"; member "copy" "copy"; member "deepCopy" "deepCopy";
    member "deepClone" "deepClone"; member "do" "do"; member "can" "can";
    member "cant" "cant"; member "getPrototype" "getPrototype";
    member "getEnumerableOwnPropertyNames" "getEnumerableOwnPropertyNames";
    member "getOwnPropertyNames" "getOwnPropertyNames";
    member "preventExtensions" "preventExtensions"; member "isExtensible" "isExtensible";
    member "seal" "seal"; member "isSealed" "isSealed"; member "freeze" "freeze";
    member "isFrozen" "isFrozen";
    member "getOwnPropertyDescriptor" "getOwnPropertyDescriptor";
    member "defineProperties" "defineProperties"; member "defineProperty" "defineProperty" ].

Definition start : state :=
  mkState [ mkObject None [] true; mkObject (Some Object_prototype) dollar_object_members true ]
          [].

(** ** Building scenarios *)

(** A method as a plain member of a prototype. *)
Definition method (name : string) (f : fn) : string * property :=
  (name, mkProperty (VFun f) true false true).

(** A new object under [parent] with the given own properties, as
    [Object.create] leaves it. *)
Definition derive (parent : loc) (members : list (string * property)) (st : state)
  : loc * state :=
  (List.length (heap st), with_heap st (heap st ++ [mkObject (Some parent) members true])).

(** An object literal [{k1: v1, ...}]. *)
Definition literal (members : list (string * val)) (st : state) : loc * state :=
  derive Object_prototype ((fun kv => (kv.1, mkProperty kv.2 true true true)) <$> members) st.

(** [parent.clone({k1: v1, ...})] *)
Definition clone_with (parent : loc) (members : list (string * val)) (st : state)
  : outcome loc :=
  let '(properties, st) := literal members st in
  let! (obj, st) := clone parent [VObj properties] st in
  match obj with
  | VObj l => Normal l st
  | _ => Unmodelled
  end.


(** The cursor of an object, as [l.__super__] reads. *)
Definition cursor (st : state) (l : loc) : val := get (heap st) l "__super__".

(** * Properties of [describe] *)

(** An annotated entry of [properties] asks for [prefix] on [bare]. *)
Definition requested (properties : list (string * val)) (bare prefix : string) : Prop :=
  exists k v prefixes,
    In (k, v) properties /\ annotation k = Some (prefixes, bare) /\ In prefix prefixes.

Lemma requested_app_l properties more bare prefix :
  requested properties bare prefix -> requested (properties ++ more) bare prefix.
Proof.
  intros (k & v & ps & Hin & Ha & Hp). exists k, v, ps.
  split; [apply in_or_app; by left | done].
Qed.

Lemma requested_last properties k v prefixes bare prefix :
  annotation k = Some (prefixes, bare) -> In prefix prefixes ->
  requested (properties ++ [(k, v)]) bare prefix.
Proof.
  intros Ha Hp. exists k, v, prefixes.
  split; [apply in_or_app; right; by left | done].
Qed.

Lemma describe_snoc properties entry defaultDescriptor :
  describe (properties ++ [entry]) defaultDescriptor =
  describe_entry (default_descriptor defaultDescriptor) (hiding_allowed defaultDescriptor)
    (describe properties defaultDescriptor) entry.
Proof. unfold describe. by rewrite fold_left_app. Qed.

(** What the prefixes of one entry leave of a descriptor. *)
Record prefixed (prefixes : list string) (d d' : PropertyDescriptor) : Prop := {
  prefixed_fallback : fallback d' = fallback d;
  prefixed_value : f_value (own d') = f_value (own d);
  prefixed_enumerable :
    f_enumerable (own d') = f_enumerable (own d)
    \/ (f_enumerable (own d') = Some (VBool false) /\ In "hidden" prefixes);
  prefixed_writable :
    f_writable (own d') = f_writable (own d)
    \/ In "const" prefixes \/ In "final" prefixes \/ In "writable" prefixes;
  prefixed_configurable :
    f_configurable (own d') = f_configurable (own d) \/ In "final" prefixes
}.

Lemma prefixed_refl d : prefixed [] d d.
Proof. split; auto. Qed.

Ltac case_string p :=
  repeat match goal with
         | |- context [String.eqb p ?s] => destruct (String.eqb_spec p s) as [->|?]
         end.

Lemma apply_prefix_prefixed value d p : prefixed [p] d (apply_prefix value d p).
Proof.
  unfold apply_prefix. case_string p; split; simpl; auto 6.
Qed.

Lemma prefixed_trans p ps d1 d2 d3 :
  prefixed [p] d1 d2 -> prefixed ps d2 d3 -> prefixed (p :: ps) d1 d3.
Proof.
  intros [A1 A2 A3 A4 A5] [B1 B2 B3 B4 B5]. split.
  - congruence.
  - congruence.
  - destruct B3 as [B3|[B3 ?]]; [|right; split; [done|by right]].
    rewrite B3. destruct A3 as [A3|[A3 Hin]]; [by left|].
    right. split; [done|]. destruct Hin as [<-|[]]. by left.
  - destruct B4 as [B4|B4].
    + rewrite B4. destruct A4 as [A4|A4]; [by left|]. right.
      destruct A4 as [[<-|[]]|[[<-|[]]|[<-|[]]]]; simpl; auto.
    + right. simpl. tauto.
  - destruct B5 as [B5|B5]; [|right; by right].
    rewrite B5. destruct A5 as [A5|[<-|[]]]; [by left|right; by left].
Qed.

Lemma fold_prefixed value prefixes d :
  prefixed prefixes d (fold_left (apply_prefix value) prefixes d).
Proof.
  revert d. induction prefixes as [|p ps IH]; intros d; simpl.
  - apply prefixed_refl.
  - eapply prefixed_trans; [apply apply_prefix_prefixed | apply IH].
Qed.

(** What lines 168-185 leave of a descriptor. *)
Lemma accessor_or_value_fallback d value :
  fallback (accessor_or_value d value).1 = fallback d.
Proof.
  unfold accessor_or_value.
  destruct (truthy (read f_get d) || truthy (read f_set d)); simpl; [|done].
  destruct (typeof value =? "string"); [|done].
  by destruct (typeof (read f_get d) =? "string").
Qed.

Lemma accessor_or_value_flags d value :
  let d' := (accessor_or_value d value).1 in
  f_enumerable (own d') = f_enumerable (own d)
  /\ f_writable (own d') = f_writable (own d)
  /\ f_configurable (own d') = f_configurable (own d).
Proof.
  unfold accessor_or_value.
  destruct (truthy (read f_get d) || truthy (read f_set d)); simpl; [|done].
  destruct (typeof value =? "string"); [|done].
  by destruct (typeof (read f_get d) =? "string").
Qed.

Lemma accessor_or_value_has_value d value :
  exists v, f_value (own (accessor_or_value d value).1) = Some v.
Proof.
  unfold accessor_or_value.
  destruct (truthy (read f_get d) || truthy (read f_set d)); simpl; eauto.
Qed.

Lemma read_get_set_value v d : read f_get (set_value v d) = read f_get d.
Proof. done. Qed.

Lemma read_set_set_value v d : read f_set (set_value v d) = read f_set d.
Proof. done. Qed.

Lemma accessor_or_value_accessor d value :
  let d' := (accessor_or_value d value).1 in
  truthy (read f_get d') || truthy (read f_set d') = true ->
  f_value (own d') = Some VUndefined.
Proof.
  unfold accessor_or_value.
  destruct (truthy (read f_get d) || truthy (read f_set d)) eqn:Hc; simpl; [done|].
  rewrite read_get_set_value, read_set_set_value. congruence.
Qed.


(** What lines 187-190 leave of a descriptor. *)
Lemma hide_other hidingAllowed name value d :
  let d' := hide hidingAllowed name value d in
  fallback d' = fallback d /\ f_value (own d') = f_value (own d)
  /\ f_get (own d') = f_get (own d) /\ f_set (own d') = f_set (own d)
  /\ f_writable (own d') = f_writable (own d)
  /\ f_configurable (own d') = f_configurable (own d).
Proof.
  unfold hide.
  by destruct (hidingAllowed && (typeof value =? "function") || starts_with "_" name).
Qed.

Lemma hide_enumerable hidingAllowed name value d :
  let d' := hide hidingAllowed name value d in
  (hidingAllowed && (typeof value =? "function") || starts_with "_" name = true
   /\ f_enumerable (own d') = Some (VBool false))
  \/ (hidingAllowed && (typeof value =? "function") || starts_with "_" name = false
      /\ f_enumerable (own d') = f_enumerable (own d)).
Proof.
  unfold hide.
  destruct (hidingAllowed && (typeof value =? "function") || starts_with "_" name);
    [left|right]; done.
Qed.

Lemma read_hide sel hidingAllowed name value d :
  (sel = f_get \/ sel = f_set) ->
  read sel (hide hidingAllowed name value d) = read sel d.
Proof.
  intros Hsel. unfold hide.
  destruct (hidingAllowed && (typeof value =? "function") || starts_with "_" name); [|done].
  by destruct Hsel as [-> | ->].
Qed.

(** The flags of a descriptor of the table, traced back to the entries seen
    so far. *)
Record flagged (defaults : fields) (hidingAllowed : bool)
    (properties : list (string * val)) (name : string) (d : PropertyDescriptor) : Prop := {
  flagged_fallback : fallback d = defaults;
  flagged_enumerable :
    f_enumerable (own d) = None
    \/ (f_enumerable (own d) = Some (VBool false)
        /\ (starts_with "_" name = true \/ requested properties name "hidden"
            \/ hidingAllowed = true));
  flagged_writable :
    f_writable (own d) = None
    \/ requested properties name "const" \/ requested properties name "final"
    \/ requested properties name "writable";
  flagged_configurable :
    f_configurable (own d) = None \/ requested properties name "final"
}.

(** What holds of every descriptor in the table. *)
Record described (defaults : fields) (hidingAllowed : bool)
    (properties : list (string * val)) (name : string) (d : PropertyDescriptor) : Prop := {
  described_flagged : flagged defaults hidingAllowed properties name d;
  described_value : exists v, f_value (own d) = Some v;
  described_accessor :
    truthy (read f_get d) || truthy (read f_set d) = true -> f_value (own d) = Some VUndefined;
  described_private :
    starts_with "_" name = true -> f_enumerable (own d) = Some (VBool false)
}.

Lemma flagged_new defaults hidingAllowed properties name :
  flagged defaults hidingAllowed properties name (new_descriptor defaults).
Proof. split; simpl; auto. Qed.

Lemma flagged_more defaults hidingAllowed properties more name d :
  flagged defaults hidingAllowed properties name d ->
  flagged defaults hidingAllowed (properties ++ more) name d.
Proof.
  intros [F1 F2 F3 F4]. split; [done|..].
  - destruct F2 as [?|[? [?|[?|?]]]]; auto 7 using requested_app_l.
  - destruct F3 as [?|[?|[?|?]]]; auto using requested_app_l.
  - destruct F4 as [?|?]; auto using requested_app_l.
Qed.

Lemma described_more defaults hidingAllowed properties more name d :
  described defaults hidingAllowed properties name d ->
  described defaults hidingAllowed (properties ++ more) name d.
Proof. intros [F V A P]. split; auto using flagged_more. Qed.

Lemma flagged_prefixed defaults hidingAllowed properties k v prefixes name d d' :
  annotation k = Some (prefixes, name) ->
  flagged defaults hidingAllowed properties name d ->
  prefixed prefixes d d' ->
  flagged defaults hidingAllowed (properties ++ [(k, v)]) name d'.
Proof.
  intros Ha F [P1 P2 P3 P4 P5].
  apply (flagged_more _ _ _ [(k, v)]) in F. destruct F as [F1 F2 F3 F4].
  pose proof (fun prefix => requested_last properties k v prefixes name prefix Ha) as Hreq.
  split.
  - congruence.
  - destruct P3 as [->|[-> Hin]]; [done|]. right. auto.
  - destruct P4 as [->|[Hin|[Hin|Hin]]]; auto.
  - destruct P5 as [->|Hin]; auto.
Qed.

Lemma resolve_flagged defaults hidingAllowed properties descriptors k v :
  (forall name d, descriptors !! name = Some d ->
                  flagged defaults hidingAllowed properties name d) ->
  flagged defaults hidingAllowed (properties ++ [(k, v)])
    (resolve descriptors defaults k v).1 (resolve descriptors defaults k v).2.
Proof.
  intros Htable. unfold resolve.
  destruct (annotation k) as [[prefixes bare]|] eqn:Ha; simpl; [|apply flagged_new].
  eapply flagged_prefixed; [done| |apply fold_prefixed].
  destruct (descriptors !! bare) as [d|] eqn:Hd; [by apply Htable | apply flagged_new].
Qed.

Lemma describe_entry_described defaults hidingAllowed properties descriptors entry :
  (forall name d, descriptors !! name = Some d ->
                  described defaults hidingAllowed properties name d) ->
  forall name d,
    describe_entry defaults hidingAllowed descriptors entry !! name = Some d ->
    described defaults hidingAllowed (properties ++ [entry]) name d.
Proof.
  intros Htable name d. destruct entry as [k v]. unfold describe_entry. simpl.
  pose proof (resolve_flagged defaults hidingAllowed properties descriptors k v) as Hres.
  destruct (resolve descriptors defaults k v) as [name1 d1]. simpl in Hres.
  pose proof (accessor_or_value_fallback d1 v) as Hfb.
  pose proof (accessor_or_value_flags d1 v) as (He & Hw & Hc).
  pose proof (accessor_or_value_has_value d1 v) as Hv.
  pose proof (accessor_or_value_accessor d1 v) as Hacc.
  destruct (accessor_or_value d1 v) as [d2 v']. simpl in *.
  destruct (decide (name1 = name)) as [->|Hne].
  - rewrite lookup_insert_eq. intros [= <-].
    destruct Hres as [F1 F2 F3 F4]; [intros n d Hd; by apply Htable|].
    pose proof (hide_other hidingAllowed name v' d2) as (H1 & H2 & H3 & H4 & H5 & H6).
    pose proof (hide_enumerable hidingAllowed name v' d2) as H7.
    split; [split|..].
    + congruence.
    + destruct H7 as [[Hcond ->]|[Hcond ->]].
      * right. split; [done|].
        apply orb_true_iff in Hcond as [Hcond|Hcond]; [|by left].
        apply andb_true_iff in Hcond as [-> _]. auto.
      * rewrite He. done.
    + rewrite H5, Hw. done.
    + rewrite H6, Hc. done.
    + rewrite H2. done.
    + rewrite H2, !read_hide by auto. done.
    + intros Hp. destruct H7 as [[_ ->]|[Hcond _]]; [done|].
      rewrite Hp, orb_true_r in Hcond. done.
  - rewrite lookup_insert_ne by done. intros Hd.
    apply described_more. by apply Htable.
Qed.

(** Every descriptor [describe] returns. *)
Lemma describe_described properties defaultDescriptor name d :
  describe properties defaultDescriptor !! name = Some d ->
  described (default_descriptor defaultDescriptor) (hiding_allowed defaultDescriptor)
    properties name d.
Proof.
  revert name d. induction properties as [|entry properties IH] using rev_ind; intros name d.
  - unfold describe. simpl. by rewrite lookup_empty.
  - rewrite describe_snoc. by apply describe_entry_described.
Qed.



Lemma annotation_parenthesis k prefixes bare :
  annotation k = Some (prefixes, bare) -> starts_with "(" k = true.
Proof. unfold annotation. by destruct (starts_with "(" k). Qed.




(** ** C9 *)

(** C9. For the raw map [{"(final) x": 1}], [describe] gives [x] a descriptor
    that reads as value 1, not writable, not configurable, enumerable: the
    first three are its own fields, and [enumerable] comes from the all-true
    baseline. *)
Theorem C9_final_x :
  exists d,
    describe [("(final) x", VNum 1)] None !! "x" = Some d
    /\ read f_value d = VNum 1
    /\ writable_of d = false
    /\ configurable_of d = false
    /\ enumerable_of d = true
    /\ ToPropertyDescriptor d
       = Data (mkAttributes (Some (VNum 1)) (Some false) (Some true) (Some false)).
Proof. eexists. split; [vm_compute; reflexivity|]. by vm_compute. Qed.

(** ** C6 *)




(** ** C4 *)




(** ** C10 *)



(** * Properties of the object store *)

Lemma lookup_own_store_own k p ps : lookup_own k (store_own k p ps) = Some p.
Proof.
  induction ps as [|[n q] ps IH]; simpl.
  - by rewrite String.eqb_refl.
  - destruct (n =? k) eqn:E; simpl; rewrite E; done.
Qed.

Lemma lookup_own_store_own_ne k k' p ps :
  k <> k' -> lookup_own k' (store_own k p ps) = lookup_own k' ps.
Proof.
  intros Hne. induction ps as [|[n q] ps IH]; simpl.
  - by apply String.eqb_neq in Hne as ->.
  - destruct (n =? k) eqn:E; simpl.
    + apply String.eqb_eq in E as ->.
      by apply String.eqb_neq in Hne as ->.
    + by rewrite IH.
Qed.

Lemma getProperty_own h l k o p :
  h !! l = Some o -> lookup_own k (props o) = Some p -> getProperty h l k = Some p.
Proof. intros Ho Hp. unfold getProperty. simpl. by rewrite Ho, Hp. Qed.

Lemma get_own h l k o p :
  h !! l = Some o -> lookup_own k (props o) = Some p -> get h l k = p_value p.
Proof. intros Ho Hp. unfold get. by erewrite getProperty_own. Qed.

(** The bound of the walk does not matter once it exceeds the start. *)
Lemma find_property_bound b1 b2 h l k :
  l < b1 -> l < b2 -> find_property b1 h l k = find_property b2 h l k.
Proof.
  revert b2 l. induction b1 as [|b1 IH]; intros b2 l H1 H2; [lia|].
  destruct b2 as [|b2]; [lia|]. simpl.
  destruct (h !! l) as [o|]; [|done].
  destruct (lookup_own k (props o)); [done|].
  destruct (proto o) as [parent|]; [|done].
  destruct (Nat.ltb_spec parent l); [|done].
  apply IH; lia.
Qed.

(** Objects added to the store do not change what older objects see. *)
Lemma find_property_grow bound h more l k :
  l < List.length h -> find_property bound (h ++ more) l k = find_property bound h l k.
Proof.
  revert l. induction bound as [|b IH]; intros l Hl; [done|]. simpl.
  rewrite lookup_app_l by done.
  destruct (h !! l) as [o|]; [|done].
  destruct (lookup_own k (props o)); [done|].
  destruct (proto o) as [parent|]; [|done].
  destruct (Nat.ltb_spec parent l); [|done].
  apply IH. lia.
Qed.

Lemma get_grow h more l k : l < List.length h -> get (h ++ more) l k = get h l k.
Proof. intros Hl. unfold get, getProperty. by rewrite find_property_grow. Qed.

(** A new object without own properties reads what its parent reads. *)
Lemma get_child h parent k :
  parent < List.length h ->
  get (h ++ [mkObject (Some parent) [] true]) (List.length h) k = get h parent k.
Proof.
  intros Hp. unfold get, getProperty. simpl.
  rewrite list_lookup_middle by done. simpl.
  destruct (Nat.ltb_spec parent (List.length h)); [|lia].
  rewrite find_property_grow by done.
  by rewrite (find_property_bound (List.length h) (S parent)) by lia.
Qed.

(** An assignment that takes effect is read back. *)
Lemma get_put h l k v : canPut (put h l k v) l k = true -> get (put h l k v) l k = v.
Proof.
  unfold put. destruct (h !! l) as [o|] eqn:Ho.
  - destruct (canPut h l k) eqn:Hcan.
    + intros _. pose proof (lookup_lt_Some _ _ _ Ho) as Hl.
      destruct (lookup_own k (props o)) as [p|];
        (erewrite get_own;
         [|by apply list_lookup_insert_eq|simpl; apply lookup_own_store_own]); done.
    + congruence.
  - unfold canPut. by rewrite Ho.
Qed.

Lemma get_defineOwnProperty_new h h' l k a :
  getOwnProperty h l k = None ->
  defineOwnProperty h l k a = Some h' ->
  get h' l k = default VUndefined (a_value a).
Proof.
  unfold getOwnProperty, defineOwnProperty.
  destruct (h !! l) as [o|] eqn:Ho; [|done]. intros ->.
  destruct (extensible o); [|done]. intros [= <-].
  pose proof (lookup_lt_Some _ _ _ Ho) as Hl.
  erewrite get_own; [|by apply list_lookup_insert_eq|simpl; apply lookup_own_store_own].
  done.
Qed.

Lemma hasProperty_false_own h l k : hasProperty h l k = false -> getOwnProperty h l k = None.
Proof.
  unfold hasProperty, getProperty, getOwnProperty. simpl.
  intros Hhas. apply bool_decide_eq_false in Hhas.
  destruct (h !! l) as [o|]; [|done].
  destruct (lookup_own k (props o)) as [p|]; [|done].
  exfalso. apply Hhas. eauto.
Qed.

(** * Properties of the delegation engine *)

(** ** C1 *)

(** A chain [$object <- A <- B <- instance] whose level [A] has a method
    [ok] that returns and a method [boom] that throws. *)
Definition chain_with_boom : loc * loc * state :=
  let '(A, st) :=
    derive dollar_object
      [method "ok" (FUser "A.ok" 0 []);
       method "boom" (FUser "A.boom" 0 [SThrow (EAtom (AStr "boom"))])] start in
  let '(B, st) := derive A [] st in
  let '(instance, st) := derive B [] st in
  (A, instance, st).

(** The claim of C1 fails on the exceptional path: after a first dispatch
    has returned, the cursor of the instance is [A]; a second dispatch whose
    method throws leaves it one level further up, at [$object]. *)
Lemma C1_cursor_not_restored_on_throw :
  let '(A, instance, st) := chain_with_boom in
  exists st1 st2 e,
    _applySuper (call 2) instance (ArgString "ok") None st = Normal VUndefined st1
    /\ _applySuper (call 2) instance (ArgString "boom") None st1 = Throw e st2
    /\ cursor st1 instance = VObj A
    /\ cursor st2 instance = VObj dollar_object
    /\ cursor st2 instance <> cursor st1 instance.
Proof.
  simpl. do 3 eexists.
  split; [vm_compute; reflexivity|].
  split; [vm_compute; reflexivity|].
  by vm_compute.
Qed.

(** C1 (amended). [_applySuper] saves the cursor, moves it one level up and
    invokes the method; when the method returns, the saved value is assigned
    back, so that after a dispatch that returns (the cursor still being
    assignable) the cursor is what it was before, or, on the first dispatch,
    the parent of the parent; a method that returns makes the dispatch
    return, with the saved value assigned back.  When the method throws, the
    error leaves [_applySuper] in the state the method left, the cursor not
    assigned back. *)
Theorem C1_cursor_restored_on_return call this methodName args st :
  (forall returned st',
      hasProperty (heap st) this "__super__" = true ->
      _applySuper call this methodName args st = Normal returned st' ->
      canPut (heap st') this "__super__" = true ->
      cursor st' this = cursor st this)
  /\ (forall parent grandparent returned st',
         hasProperty (heap st) this "__super__" = false ->
         getPrototypeOf (heap st) this = Some (VObj parent) ->
         getPrototypeOf (heap st) parent = Some grandparent ->
         _applySuper call this methodName args st = Normal returned st' ->
         canPut (heap st') this "__super__" = true ->
         cursor st' this = grandparent)
  /\ (forall name saved next f returned st',
         methodName = ArgString name ->
         hasProperty (heap st) this "__super__" = true ->
         cursor st this = VObj saved ->
         getPrototypeOf (heap st) saved = Some next ->
         let advanced := with_heap st (put (heap st) this "__super__" next) in
         get (heap advanced) saved name = VFun f ->
         call f this (default [] args) advanced = Normal returned st' ->
         _applySuper call this methodName args st
         = Normal returned (with_heap st' (put (heap st') this "__super__" (VObj saved))))
  /\ (forall name saved next f e st',
         methodName = ArgString name ->
         hasProperty (heap st) this "__super__" = true ->
         cursor st this = VObj saved ->
         getPrototypeOf (heap st) saved = Some next ->
         let advanced := with_heap st (put (heap st) this "__super__" next) in
         get (heap advanced) saved name = VFun f ->
         call f this (default [] args) advanced = Throw e st' ->
         _applySuper call this methodName args st = Throw e st').
Proof.
  split; [|split; [|split]].
  - intros returned st' Hhas. unfold _applySuper, init_super. rewrite Hhas.
    destruct methodName as [s|a|]; simpl;
      (destruct (get (heap st) this "__super__") as [| | | | | | |saved] eqn:Hsaved; try done;
       destruct (getPrototypeOf (heap st) saved) as [next|]; [|done];
       match goal with |- context [apply call ?f this ?a ?s] =>
         destruct (apply call f this a s) as [r stc| | |]; simpl; try done end;
       intros [= <- <-]; simpl; intros Hcan;
       unfold cursor; simpl; rewrite get_put by done; done).
  - intros parent grandparent returned st' Hhas Hp Hg.
    unfold _applySuper, init_super. rewrite Hhas, Hp, Hg.
    unfold Object_defineProperty.
    destruct (defineOwnProperty (heap st) this "__super__" _) as [h0|] eqn:Hdef;
      [|by destruct methodName].
    pose proof (get_defineOwnProperty_new _ _ _ _ _ (hasProperty_false_own _ _ _ Hhas) Hdef)
      as Hget. simpl in Hget.
    destruct methodName as [s|a|]; simpl; rewrite Hget;
      (destruct grandparent as [| | | | | | |saved]; try done;
       destruct (getPrototypeOf h0 saved) as [next|]; [|done];
       match goal with |- context [apply call ?f this ?a ?s] =>
         destruct (apply call f this a s) as [r stc| | |]; simpl; try done end;
       intros [= <- <-]; simpl; intros Hcan;
       unfold cursor; simpl; rewrite get_put by done; done).
  - intros name saved next f returned st' -> Hhas Hsaved Hnext advanced Hf Hcall.
    unfold _applySuper, init_super. rewrite Hhas. simpl.
    unfold cursor in Hsaved. rewrite Hsaved, Hnext. fold advanced.
    simpl in Hf. simpl. rewrite Hf. simpl. by rewrite Hcall.
  - intros name saved next f e st' -> Hhas Hsaved Hnext advanced Hf Hcall.
    unfold _applySuper, init_super. rewrite Hhas. simpl.
    unfold cursor in Hsaved. rewrite Hsaved, Hnext. fold advanced.
    simpl in Hf. simpl. rewrite Hf. simpl. by rewrite Hcall.
Qed.

(** C1 (amended) on two dispatches of [ok] in a row. *)
Lemma C1_cursor_restored_on_return_witness :
  let '(A, instance, st) := chain_with_boom in
  exists st1 st2,
    _applySuper (call 2) instance (ArgString "ok") None st = Normal VUndefined st1
    /\ cursor st1 instance = VObj A
    /\ _applySuper (call 2) instance (ArgString "ok") None st1 = Normal VUndefined st2
    /\ cursor st2 instance = cursor st1 instance.
Proof.
  simpl. do 2 eexists.
  split; [vm_compute; reflexivity|].
  split.
  { eapply (proj1 (proj2 (C1_cursor_restored_on_return (call 2) 4 (ArgString "ok") None
                            chain_with_boom.2))
              3 (VObj 2) VUndefined);
      [reflexivity | reflexivity | reflexivity | vm_compute; reflexivity | reflexivity]. }
  split; [vm_compute; reflexivity|].
  eapply (proj1 (C1_cursor_restored_on_return (call 2) 4 (ArgString "ok") None _)
            VUndefined);
    [reflexivity | vm_compute; reflexivity | reflexivity].
Defined.

(** ** C2 *)






(** ** C7 *)





(** ** C3 *)

(** [nested = {deep: 1}; source = $object.clone({a: nested})] *)
Definition source_with_nested : outcome (loc * loc) :=
  let '(nested, st) := literal [("deep", VNum 1)] start in
  let! (source, st) := clone_with dollar_object [("a", VObj nested)] st in
  Normal (nested, source) st.

(** C3 (the code at the failing input).  The test of line 386 holds of every
    value, so [copy] always forgets the deep mode: with ['deepCopy'] and with
    ['deepClone'] the copy of [source] holds under [a] the very object the
    source holds, while [deepCopy] on the same source gives a new one.  With
    [mixParents] left out the object returned has no [a] at all, its
    properties being defined on a clone of it. *)
Theorem C3_deep_mode_ignored :
  (forall deepMethod,
      loose_neq_string deepMethod "deepCopy" || loose_neq_string deepMethod "deepClone" = true)
  /\ exists nested source st,
      source_with_nested = Normal (nested, source) st
      /\ get (heap st) source "a" = VObj nested
      /\ (forall fuel, exists copied st',
             copy (call fuel) source [VStr "deepCopy"; VUndefined; VUndefined; VBool true] st
             = Normal (VObj copied) st'
             /\ copied <> source
             /\ get (heap st') copied "a" = VObj nested)
      /\ (forall fuel, exists copied st',
             copy (call fuel) source [VStr "deepClone"; VUndefined; VUndefined; VBool true] st
             = Normal (VObj copied) st'
             /\ copied <> source
             /\ get (heap st') copied "a" = VObj nested)
      /\ (forall fuel, exists copied st',
             copy (call (1 + fuel)) source [VStr "deepCopy"] st = Normal (VObj copied) st'
             /\ get (heap st') copied "a" = VUndefined)
      /\ (forall fuel, exists copied fresh st',
             deepCopy (call (1 + fuel)) source [] st = Normal (VObj copied) st'
             /\ get (heap st') copied "a" = VObj fresh
             /\ fresh <> nested).
Proof.
  split.
  - intros [| | | | |s| |]; try done. simpl.
    destruct (String.eqb_spec s "deepCopy") as [->|]; done.
  - do 3 eexists. split; [vm_compute; reflexivity|].
    split; [vm_compute; reflexivity|].
    split; [|split; [|split]].
    + intros fuel. do 2 eexists. split; [vm_compute; reflexivity|]. by vm_compute.
    + intros fuel. do 2 eexists. split; [vm_compute; reflexivity|]. by vm_compute.
    + intros fuel. do 2 eexists. split; [vm_compute; reflexivity|]. by vm_compute.
    + intros fuel. do 3 eexists. split; [vm_compute; reflexivity|].
      split; [vm_compute; reflexivity|]. by vm_compute.
Qed.

(** ** C5 *)

Lemma fn_eqb_refl f : fn_eqb f f = true.
Proof. destruct f; simpl; apply String.eqb_refl. Qed.

Lemma strict_eqb_refl v : strict_eqb v v = true.
Proof.
  destruct v; simpl; auto using Z.eqb_refl, String.eqb_refl, Nat.eqb_refl, fn_eqb_refl.
  by destruct b.
Qed.

Lemma fresh_property_attributes_of p : fresh_property (attributes_of p) = p.
Proof. by destruct p. Qed.

Lemma merge_attributes_of p : merge (attributes_of p) p = p.
Proof. by destruct p. Qed.

Lemma admissible_attributes_of p : admissible (attributes_of p) p = true.
Proof.
  unfold admissible. destruct p as [v w e c]. simpl.
  destruct c; [done|]. simpl. rewrite strict_eqb_refl.
  by destruct w, e.
Qed.

(** The own properties of the target are among those of the source. *)
Definition agree (source target : list (string * property)) : Prop :=
  forall n p, lookup_own n target = Some p -> lookup_own n source = Some p.

Lemma agree_store_own source target n p :
  agree source target -> lookup_own n source = Some p -> agree source (store_own n p target).
Proof.
  intros Hagree Hp m q. destruct (decide (n = m)) as [<-|Hne].
  - rewrite lookup_own_store_own. congruence.
  - rewrite lookup_own_store_own_ne by done. apply Hagree.
Qed.

Lemma lookup_own_names n ps : In n ps.*1 -> is_Some (lookup_own n ps).
Proof.
  induction ps as [|[m p] ps IH]; simpl; [done|].
  intros [->|Hin]; [rewrite String.eqb_refl; eauto|].
  destruct (m =? n); eauto.
Qed.

Lemma lookup_own_In n p ps : lookup_own n ps = Some p -> In n ps.*1.
Proof.
  induction ps as [|[m q] ps IH]; simpl; [done|].
  destruct (String.eqb_spec m n) as [->|]; [by left|]. right. auto.
Qed.

(** Defining a property of the source on a target that agrees with it. *)
Lemma define_from_source h target to n p :
  h !! target = Some to -> extensible to = true ->
  (forall q, lookup_own n (props to) = Some q -> q = p) ->
  defineOwnProperty h target n (attributes_of p)
  = Some (<[target := set_props to (store_own n p (props to))]> h).
Proof.
  intros Hto Hext Hsame. unfold defineOwnProperty. rewrite Hto.
  destruct (lookup_own n (props to)) as [current|] eqn:Hcur.
  - rewrite (Hsame current eq_refl).
    by rewrite admissible_attributes_of, merge_attributes_of.
  - by rewrite Hext, fresh_property_attributes_of.
Qed.

(** Lines 1090-1094 on a target that agrees with the source: the properties
    named are copied, nothing else changes. *)
Lemma copy_own_agree names : forall st source target so to,
  source <> target ->
  heap st !! source = Some so -> heap st !! target = Some to ->
  extensible to = true -> agree (props so) (props to) ->
  (forall n, In n names -> is_Some (lookup_own n (props so))) ->
  exists to',
    copy_own source target names st = Normal tt (with_heap st (<[target := to']> (heap st)))
    /\ proto to' = proto to /\ extensible to' = true
    /\ agree (props so) (props to')
    /\ (forall n, is_Some (lookup_own n (props to)) -> is_Some (lookup_own n (props to')))
    /\ (forall n, In n names -> is_Some (lookup_own n (props to'))).
Proof.
  induction names as [|name names IH]; intros st source target so to Hne Hso Hto Hext Hag Hnames.
  - exists to. simpl. rewrite list_insert_id by done.
    destruct st; simpl. repeat split; auto. intros ? [].
  - simpl. unfold getOwnProperty. rewrite Hso.
    destruct (Hnames name) as [p Hp]; [by left|]. rewrite Hp. simpl.
    rewrite (define_from_source _ _ to) by
      (try done; intros q Hq; apply Hag in Hq; congruence).
    simpl.
    pose proof (lookup_lt_Some _ _ _ Hto) as Hlt.
    set (to1 := set_props to (store_own name p (props to))).
    destruct (IH (with_heap st (<[target := to1]> (heap st))) source target so to1)
      as (to' & Hcopy & Hproto & Hext' & Hag' & Hkeep & Hcover); simpl; try done.
    + by rewrite list_lookup_insert_ne.
    + by rewrite list_lookup_insert_eq.
    + by apply agree_store_own.
    + intros n Hn. apply Hnames. by right.
    + exists to'. rewrite Hcopy. simpl. rewrite list_insert_insert_eq.
      repeat split; auto.
      * intros n Hn. apply Hkeep. simpl.
        destruct (decide (name = n)) as [<-|?];
          [rewrite lookup_own_store_own; eauto | by rewrite lookup_own_store_own_ne].
      * intros n [<-|Hn]; [|by apply Hcover].
        apply Hkeep. simpl. rewrite lookup_own_store_own. eauto.
Qed.

(** One turn of the loop of [mix] with nesting: a new object under the
    current one receives the own properties of the source. *)
Lemma mix_each_nested st this source so rest :
  heap st !! source = Some so -> props so <> [] ->
  exists layer,
    mix_each (VBool true) (VObj source :: rest) this st
    = mix_each (VBool true) rest (List.length (heap st))
        (with_heap st (heap st ++ [layer]))
    /\ proto layer = Some this
    /\ forall n, lookup_own n (props layer) = lookup_own n (props so).
Proof.
  intros Hso Hprops. simpl. unfold getOwnPropertyNames. rewrite Hso.
  assert (negb (List.length (props so).*1 =? 0)%nat = true) as ->.
  { destruct (props so); [done|]. done. }
  simpl. unfold allocate. simpl.
  pose proof (lookup_lt_Some _ _ _ Hso) as Hlt.
  set (h1 := heap st ++ [mkObject (Some this) [] true]).
  destruct (copy_own_agree ((props so).*1) (with_heap st h1) source (List.length (heap st))
              so (mkObject (Some this) [] true))
    as (layer & Hcopy & Hproto & _ & Hag & _ & Hcover); simpl; try done.
  - lia.
  - unfold h1. by rewrite lookup_app_l.
  - unfold h1. by rewrite list_lookup_middle.
  - intros n. apply lookup_own_names.
  - exists layer. rewrite Hcopy. simpl.
    assert (<[List.length (heap st) := layer]> h1 = heap st ++ [layer]) as ->.
    { unfold h1. by rewrite (insert_app_r_alt _ _ _ _ (le_n _)), Nat.sub_diag. }
    assert (List.length (heap st ++ [layer]) = List.length h1) as Hlen.
    { unfold h1. by rewrite !length_app. }
    split; [|split; [done|]].
    + destruct st; done.
    + intros n. destruct (lookup_own n (props so)) as [p|] eqn:Hp.
      * destruct (Hcover n) as [q Hq]; [exact (lookup_own_In _ _ _ Hp)|].
        rewrite Hq. apply Hag in Hq. congruence.
      * destruct (lookup_own n (props layer)) as [q|] eqn:Hq; [|done].
        apply Hag in Hq. congruence.
Qed.

(** [Src1 = {k: 1}; Src2 = {k: 2}] *)
Definition two_sources : loc * loc * state :=
  let '(Src1, st) := literal [("k", VNum 1)] start in
  let '(Src2, st) := literal [("k", VNum 2)] st in
  (Src1, Src2, st).

(** The claim of C5 fails: [$object.mix([Src1, Src2])] reads [k] as [Src1]
    has it, not as [Src2] has it. *)
Lemma C5_later_source_does_not_win :
  let '(Src1, Src2, st) := two_sources in
  exists mixed st',
    mix dollar_object (MixArray [VObj Src1; VObj Src2]) VUndefined VUndefined st
    = Normal (VObj mixed) st'
    /\ get (heap st) Src1 "k" = VNum 1
    /\ get (heap st) Src2 "k" = VNum 2
    /\ get (heap st') mixed "k" = VNum 1
    /\ get (heap st') mixed "k" <> get (heap st) Src2 "k".
Proof.
  simpl. do 2 eexists. split; [vm_compute; reflexivity|]. by vm_compute.
Qed.

(** C5 (amended). For two source objects and a key both have as an own
    property, [mix([Src1, Src2])] returns an object on which the key reads as
    [Src1] has it: the list is reversed, [Src2] is copied first and [Src1]
    last, onto a new object below, so the source listed first wins. *)
Theorem C5_first_listed_wins st this Src1 Src2 k p1 p2 :
  getOwnProperty (heap st) Src1 k = Some p1 ->
  getOwnProperty (heap st) Src2 k = Some p2 ->
  exists mixed st',
    mix this (MixArray [VObj Src1; VObj Src2]) VUndefined VUndefined st
    = Normal (VObj mixed) st'
    /\ get (heap st') mixed k = p_value p1.
Proof.
  unfold getOwnProperty. intros H1 H2.
  destruct (heap st !! Src1) as [o1|] eqn:Ho1; [|done].
  destruct (heap st !! Src2) as [o2|] eqn:Ho2; [|done].
  assert (mix this (MixArray [VObj Src1; VObj Src2]) VUndefined VUndefined st
          = mix_each (VBool true) [VObj Src2; VObj Src1] this st) as -> by reflexivity.
  destruct (mix_each_nested st this Src2 o2 [VObj Src1]) as (layer2 & -> & _ & _);
    [done | by intros E; rewrite E in H2 |].
  set (st2 := with_heap st (heap st ++ [layer2])).
  pose proof (lookup_lt_Some _ _ _ Ho1) as Hlt.
  destruct (mix_each_nested st2 (List.length (heap st)) Src1 o1 []) as (layer1 & -> & _ & Hl1);
    [simpl; by rewrite lookup_app_l | by intros E; rewrite E in H1 |].
  simpl. do 2 eexists. split; [done|]. simpl.
  erewrite get_own; [done| |by rewrite Hl1].
  by rewrite list_lookup_middle.
Qed.

(** C5 (amended) at [$object.mix([{k: 1}, {k: 2}])]. *)
Lemma C5_first_listed_wins_witness :
  let '(Src1, Src2, st) := two_sources in
  exists mixed st',
    mix dollar_object (MixArray [VObj Src1; VObj Src2]) VUndefined VUndefined st
    = Normal (VObj mixed) st'
    /\ get (heap st') mixed "k" = VNum 1.
Proof.
  simpl.
  apply (C5_first_listed_wins two_sources.2 dollar_object 2 3 "k"
           (mkProperty (VNum 1) true true true) (mkProperty (VNum 2) true true true));
    reflexivity.
Defined.

(** ** C8 *)

(** [this.clone()] is a new, empty, extensible object under [this]. *)
Lemma clone_no_arguments this st :
  clone this [] st
  = Normal (VObj (List.length (heap st)))
      (with_heap st (heap st ++ [mkObject (Some this) [] true])).
Proof. done. Qed.

Lemma create_unfold call this arguments st o :
  heap st !! this = Some o ->
  create call this arguments st
  = let obj := List.length (heap st) in
    let! (returned, st') :=
      apply call (get (heap st) this "constructor") obj arguments
        (with_heap st (heap st ++ [mkObject (Some this) [] true])) in
    Normal (if truthy returned then returned else VObj obj) st'.
Proof.
  intros Ho. unfold create. rewrite clone_no_arguments. simpl.
  by rewrite get_child by (by eapply lookup_lt_Some).
Qed.

(** A sealed object without own properties takes no new property. *)
Lemma sealed_empty_refuses h obj parent :
  h !! obj = Some (mkObject parent [] false) ->
  isSealed h obj = true
  /\ (forall k a, defineOwnProperty h obj k a = None)
  /\ (forall k v, put h obj k v = h).
Proof.
  intros Ho. split; [|split].
  - unfold isSealed. by rewrite Ho.
  - intros k a. unfold defineOwnProperty. by rewrite Ho.
  - intros k v. unfold put, canPut. rewrite Ho. simpl.
    by destruct (inherited h obj k).
Qed.

(** The default constructor, given no properties, on an object that reads
    it as its constructor. *)
Lemma CloneObject_seals this arguments st :
  truthy (nth 0 arguments VUndefined) = false ->
  get (heap st) this "constructor" = VFun (FNative "CloneObject") ->
  CloneObject this arguments st = Normal VUndefined (with_heap st (seal (heap st) this)).
Proof. intros Hnone Hdefault. unfold CloneObject. rewrite Hnone. simpl. by rewrite Hdefault. Qed.

Lemma call_CloneObject fuel this arguments st :
  call (S fuel) (FNative "CloneObject") this arguments st = CloneObject this arguments st.
Proof. done. Qed.





(** * Further properties of [describe] *)

(** ** The order of the prefixes *)

Lemma ascii_compare_trans_le a b c :
  Ascii.compare a b <> Gt -> Ascii.compare b c <> Gt -> Ascii.compare a c <> Gt.
Proof.
  unfold Ascii.compare. rewrite !N.compare_le_iff. lia.
Qed.

Lemma ascii_compare_eq a b : Ascii.compare a b = Eq -> a = b.
Proof.
  unfold Ascii.compare. intros H%N.compare_eq.
  rewrite <- (ascii_N_embedding a), <- (ascii_N_embedding b). by rewrite H.
Qed.

Lemma string_compare_trans_le s1 : forall s2 s3,
  String.compare s1 s2 <> Gt -> String.compare s2 s3 <> Gt -> String.compare s1 s3 <> Gt.
Proof.
  induction s1 as [|a s1 IH]; intros [|b s2] [|c s3]; simpl; try done.
  destruct (Ascii.compare a b) eqn:Hab; try done;
    destruct (Ascii.compare b c) eqn:Hbc; try done; intros H1 H2.
  - apply ascii_compare_eq in Hab as ->. rewrite Hbc. by apply (IH s2).
  - apply ascii_compare_eq in Hab as ->. by rewrite Hbc.
  - apply ascii_compare_eq in Hbc as <-. by rewrite Hab.
  - assert (Ascii.compare a c <> Gt) as Hac
      by (apply (ascii_compare_trans_le a b c); congruence).
    destruct (Ascii.compare a c) eqn:E; try done.
    apply ascii_compare_eq in E as ->.
    unfold Ascii.compare in Hab, Hbc. rewrite N.compare_lt_iff in Hab, Hbc. lia.
Qed.

Lemma leb_compare s1 s2 : String.leb s1 s2 = true <-> String.compare s1 s2 <> Gt.
Proof. unfold String.leb. destruct (String.compare s1 s2); split; done. Qed.

Definition string_le (s1 s2 : string) : Prop := String.leb s1 s2 = true.

#[local] Instance string_le_trans : Transitive string_le.
Proof.
  intros s1 s2 s3. unfold string_le. rewrite !leb_compare.
  apply string_compare_trans_le.
Qed.

#[local] Instance string_le_antisym : AntiSymm eq string_le.
Proof. intros s1 s2. apply String.leb_antisym. Qed.

Lemma insert_sorted_perm x l : insert_sorted x l ≡ₚ x :: l.
Proof.
  induction l as [|y l IH]; simpl; [done|].
  destruct (String.leb x y); [done|]. rewrite IH. apply Permutation_swap.
Qed.

Lemma sort_perm l : sort l ≡ₚ l.
Proof.
  induction l as [|x l IH]; simpl; [done|]. by rewrite insert_sorted_perm, IH.
Qed.

Lemma insert_sorted_sorted x l :
  StronglySorted string_le l -> StronglySorted string_le (insert_sorted x l).
Proof.
  induction 1 as [|y l Hl IH Hy]; simpl.
  - repeat constructor.
  - destruct (String.leb x y) eqn:Hxy.
    + constructor; [by constructor|]. constructor; [done|].
      eapply Forall_impl; [exact Hy|]. intros z Hz. by transitivity y.
    + constructor; [done|].
      rewrite insert_sorted_perm. constructor; [|done].
      destruct (String.leb_total x y) as [H|H]; [congruence|done].
Qed.

Lemma sort_sorted l : StronglySorted string_le (sort l).
Proof.
  induction l as [|x l IH]; simpl; [constructor|]. by apply insert_sorted_sorted.
Qed.

(** Two lists of prefixes that differ only in their order sort to the same
    list. *)
Lemma sort_order_irrelevant l1 l2 : l1 ≡ₚ l2 -> sort l1 = sort l2.
Proof.
  intros Hperm. apply (StronglySorted_unique string_le); try apply sort_sorted.
  by rewrite !sort_perm.
Qed.

(** ** Writing and reading annotated names *)

(** [prefixes.join(' ')] *)
Fixpoint join_space (prefixes : list string) : string :=
  match prefixes with
  | [] => EmptyString
  | [k] => k
  | k :: rest => (k ++ String " " (join_space rest))%string
  end.

Fixpoint spaces (n : nat) : string :=
  match n with
  | O => EmptyString
  | S n' => String " " (spaces n')
  end.

(** The key ["(p1 p2 ...)   name"], with [S gap] spaces before the name. *)
Definition annotated (prefixes : list string) (gap : nat) (bare : string) : string :=
  String "(" (join_space prefixes ++ String ")" (spaces (S gap) ++ bare))%string.

Fixpoint occurs (c : ascii) (s : string) : bool :=
  match s with
  | EmptyString => false
  | String a r => Ascii.eqb a c || occurs c r
  end.

Ltac keyword_cases H :=
  unfold keywords in H; simpl in H;
  repeat (destruct H as [<-|H]; [|]); try destruct H.

Lemma append_cons a s r : (String a s ++ r)%string = String a (s ++ r)%string.
Proof. done. Qed.

Lemma append_empty_r s : (s ++ EmptyString)%string = s.
Proof. induction s as [|a s IH]; [done|]. by rewrite append_cons, IH. Qed.

Lemma length_append_string s r :
  String.length (s ++ r)%string = String.length s + String.length r.
Proof. induction s as [|a s IH]; [done|]. rewrite append_cons. simpl. by rewrite IH. Qed.

Lemma occurs_append c s r : occurs c (s ++ r)%string = occurs c s || occurs c r.
Proof.
  induction s as [|a s IH]; [done|]. rewrite append_cons. simpl.
  by rewrite IH, orb_assoc.
Qed.

Lemma keyword_shape k :
  In k keywords ->
  occurs ")" k = false /\ occurs " " k = false /\ k <> EmptyString
  /\ forall r, first_keyword keywords (k ++ r)%string = Some r.
Proof. intros H. keyword_cases H; repeat split; done. Qed.

Lemma break_at_append c s r :
  occurs c s = false -> break_at c (s ++ String c r)%string = Some (s, r).
Proof.
  induction s as [|a s IH].
  - intros _. change (EmptyString ++ String c r)%string with (String c r).
    simpl. by rewrite Ascii.eqb_refl.
  - rewrite append_cons. simpl.
    intros [Ha Hs]%orb_false_iff. rewrite Ha, IH by done. done.
Qed.

Lemma join_space_shape prefixes :
  Forall (fun k => In k keywords) prefixes ->
  occurs ")" (join_space prefixes) = false
  /\ (prefixes <> [] -> starts_with " " (join_space prefixes) = false
                        /\ join_space prefixes <> EmptyString).
Proof.
  induction 1 as [|k rest Hk Hrest [IH1 IH2]]; [done|].
  pose proof Hk as Hk'. apply keyword_shape in Hk' as (Hparen & _ & Hne & _).
  split.
  - destruct rest as [|k2 rest]; [done|].
    change (join_space (k :: k2 :: rest))
      with (k ++ String " " (join_space (k2 :: rest)))%string.
    rewrite occurs_append, Hparen.
    change (occurs ")" (String " " (join_space (k2 :: rest))))
      with (Ascii.eqb " " ")" || occurs ")" (join_space (k2 :: rest))).
    by rewrite IH1.
  - intros _. split.
    + destruct rest; keyword_cases Hk; done.
    + destruct rest; [done|]. by destruct k.
Qed.

Lemma flags_group_join prefixes : forall fuel,
  prefixes <> [] -> Forall (fun k => In k keywords) prefixes ->
  List.length prefixes <= fuel ->
  flags_group fuel (join_space prefixes) = true.
Proof.
  induction prefixes as [|k rest IH]; intros fuel Hne Hall Hfuel; [done|].
  apply Forall_cons in Hall as [Hk Hrest].
  destruct fuel as [|fuel]; [simpl in Hfuel; lia|].
  apply keyword_shape in Hk as (_ & _ & _ & Hfirst).
  destruct rest as [|k2 rest].
  - specialize (Hfirst EmptyString). rewrite append_empty_r in Hfirst.
    cbn [flags_group join_space]. by rewrite Hfirst.
  - change (join_space (k :: k2 :: rest))
      with (k ++ String " " (join_space (k2 :: rest)))%string.
    cbn [flags_group]. rewrite Hfirst.
    destruct (join_space_shape (k2 :: rest) Hrest) as [_ Hshape].
    destruct Hshape as [Hstart Hnonempty]; [done|].
    specialize (IH fuel ltac:(done) Hrest ltac:(simpl in *; lia)).
    destruct (join_space (k2 :: rest)) as [|c r] eqn:Hj; [done|].
    unfold starts_with in Hstart. simpl in Hstart.
    assert (skip_spaces (String " " (String c r)) = String c r) as ->.
    { simpl. destruct (Ascii.eqb_spec c " ") as [->|Hc]; [done|].
      destruct c as [[] [] [] [] [] [] [] []]; done. }
    exact IH.
Qed.

Lemma join_space_length prefixes :
  Forall (fun k => In k keywords) prefixes ->
  List.length prefixes <= String.length (join_space prefixes).
Proof.
  induction 1 as [|k rest Hk Hrest IH]; [done|].
  apply keyword_shape in Hk as (_ & _ & Hne & _).
  destruct rest as [|k2 rest].
  - simpl. destruct k; [done|]. simpl. lia.
  - change (join_space (k :: k2 :: rest))
      with (k ++ String " " (join_space (k2 :: rest)))%string.
    rewrite length_append_string. simpl in *. lia.
Qed.

Lemma split_space_word k : occurs " " k = false -> split_space k = [k].
Proof.
  induction k as [|a k IH]; simpl; [done|].
  intros [Ha Hk]%orb_false_iff. rewrite Ha, IH by done. done.
Qed.

Lemma split_space_append k r :
  occurs " " k = false -> split_space (k ++ String " " r)%string = k :: split_space r.
Proof.
  induction k as [|a k IH]; [done|]. rewrite append_cons. simpl.
  intros [Ha Hk]%orb_false_iff. rewrite Ha, IH by done. done.
Qed.

Lemma split_space_join prefixes :
  prefixes <> [] -> Forall (fun k => In k keywords) prefixes ->
  split_space (join_space prefixes) = prefixes.
Proof.
  induction prefixes as [|k rest IH]; intros Hne Hall; [done|].
  apply Forall_cons in Hall as [Hk Hrest].
  apply keyword_shape in Hk as (_ & Hspace & _ & _).
  destruct rest as [|k2 rest].
  - by apply split_space_word.
  - change (join_space (k :: k2 :: rest))
      with (k ++ String " " (join_space (k2 :: rest)))%string.
    rewrite split_space_append by done. by rewrite IH.
Qed.

Lemma name_group_gap gap bare :
  bare <> EmptyString -> starts_with " " bare = false -> all_dots bare = true ->
  name_group (spaces (S gap) ++ bare)%string = Some bare.
Proof.
  intros Hne Hstart Hdots. unfold name_group.
  assert (forall n, count_spaces (spaces n ++ bare)%string = n
                    /\ skip_spaces (spaces n ++ bare)%string = bare) as Hgap.
  { induction n as [|n [IH1 IH2]].
    - change (spaces 0 ++ bare)%string with bare.
      destruct bare as [|c r]; [done|]. unfold starts_with in Hstart. simpl in Hstart.
      destruct c as [[] [] [] [] [] [] [] []]; done.
    - change (spaces (S n) ++ bare)%string with (String " " (spaces n ++ bare)%string).
      simpl. split; congruence. }
  destruct (Hgap (S gap)) as [-> ->].
  destruct bare; [done|]. destruct gap; by rewrite Hdots.
Qed.

(** The pattern on a name written from keywords and a bare name. *)
Lemma match_annotated_written prefixes gap bare :
  prefixes <> [] -> Forall (fun k => In k keywords) prefixes ->
  bare <> EmptyString -> starts_with " " bare = false -> all_dots bare = true ->
  match_annotated (annotated prefixes gap bare) = Some (join_space prefixes, bare).
Proof.
  intros Hne Hall Hbare Hstart Hdots. unfold match_annotated, annotated.
  rewrite break_at_append by (by apply join_space_shape).
  rewrite flags_group_join by (try done; by apply join_space_length).
  by rewrite name_group_gap.
Qed.

Lemma annotation_written prefixes gap bare :
  prefixes <> [] -> Forall (fun k => In k keywords) prefixes ->
  bare <> EmptyString -> starts_with " " bare = false -> all_dots bare = true ->
  annotation (annotated prefixes gap bare) = Some (sort prefixes, bare).
Proof.
  intros Hne Hall Hbare Hstart Hdots.
  unfold annotation. rewrite match_annotated_written by done.
  assert (starts_with "(" (annotated prefixes gap bare) = true) as -> by done.
  by rewrite split_space_join.
Qed.

(** X1. An annotated name written from keywords and a bare name reads back as
    those keywords, sorted, and that bare name: one space between the
    keywords, one or more before the name, which is not empty, does not begin
    with a space and has no line terminator. *)
Theorem annotation_round_trip prefixes gap bare :
  prefixes <> [] -> Forall (fun k => In k keywords) prefixes ->
  bare <> EmptyString -> starts_with " " bare = false -> all_dots bare = true ->
  match_annotated (annotated prefixes gap bare) = Some (join_space prefixes, bare)
  /\ annotation (annotated prefixes gap bare) = Some (sort prefixes, bare).
Proof.
  intros Hne Hall Hbare Hstart Hdots. split.
  - by apply match_annotated_written.
  - by apply annotation_written.
Qed.

(** X1 at ["(writable final)   notConfigurableOnly"]. *)
Lemma annotation_round_trip_witness :
  annotation "(writable final)   notConfigurableOnly"
  = Some (["final"; "writable"], "notConfigurableOnly").
Proof.
  apply (proj2 (annotation_round_trip ["writable"; "final"] 2 "notConfigurableOnly"
                  ltac:(done) ltac:(repeat constructor; simpl; tauto)
                  ltac:(done) eq_refl eq_refl)).
Defined.

(** X2. Two annotated names with the same keywords in different orders (and
    any spacing before the name) are read alike. *)
Theorem annotation_order_irrelevant prefixes1 prefixes2 gap1 gap2 bare :
  prefixes1 <> [] -> Forall (fun k => In k keywords) prefixes1 ->
  prefixes1 ≡ₚ prefixes2 ->
  bare <> EmptyString -> starts_with " " bare = false -> all_dots bare = true ->
  annotation (annotated prefixes1 gap1 bare) = annotation (annotated prefixes2 gap2 bare).
Proof.
  intros Hne Hall Hperm Hbare Hstart Hdots.
  assert (prefixes2 <> []) as Hne2.
  { intros ->. by apply Permutation_nil_r in Hperm. }
  assert (Forall (fun k => In k keywords) prefixes2) as Hall2 by (by rewrite <- Hperm).
  rewrite (annotation_written prefixes1 gap1 bare Hne Hall Hbare Hstart Hdots).
  rewrite (annotation_written prefixes2 gap2 bare Hne2 Hall2 Hbare Hstart Hdots).
  by rewrite (sort_order_irrelevant _ _ Hperm).
Qed.

(** X2 at ["(hidden final get) y"] and ["(get hidden final)  y"]. *)
Lemma annotation_order_irrelevant_witness :
  annotation "(hidden final get) y" = annotation "(get hidden final)  y".
Proof.
  apply (annotation_order_irrelevant ["hidden"; "final"; "get"] ["get"; "hidden"; "final"]
           0 1 "y");
    [done | repeat constructor; simpl; tauto | | done | reflexivity | reflexivity].
  apply (bool_decide_unpack _). by vm_compute.
Defined.

(** ** What the prefixes add up to *)

Lemma annotation_sorted k prefixes bare :
  annotation k = Some (prefixes, bare) -> StronglySorted string_le prefixes.
Proof.
  unfold annotation. destruct (starts_with "(" k); [|done].
  destruct (match_annotated k) as [[flags b]|]; [|done].
  intros [= <- _]. apply sort_sorted.
Qed.

Lemma describe_entry_annotated defaults hidingAllowed descriptors k v prefixes bare :
  annotation k = Some (prefixes, bare) ->
  describe_entry defaults hidingAllowed descriptors (k, v)
  = let start := default (new_descriptor defaults) (descriptors !! bare) in
    let prefixed := fold_left (apply_prefix v) prefixes start in
    <[bare := hide hidingAllowed bare (accessor_or_value prefixed v).2
                (accessor_or_value prefixed v).1]> descriptors.
Proof.
  intros Ha. unfold describe_entry, resolve. simpl. rewrite Ha.
  destruct (descriptors !! bare); simpl; by destruct (accessor_or_value _ v).
Qed.


Lemma apply_prefix_writable v d p :
  (p = "writable" /\ f_writable (own (apply_prefix v d p)) = Some (VBool true))
  \/ ((p = "const" \/ p = "final")
      /\ f_writable (own (apply_prefix v d p)) = Some (VBool false))
  \/ (p <> "writable" /\ p <> "const" /\ p <> "final"
      /\ f_writable (own (apply_prefix v d p)) = f_writable (own d)).
Proof. unfold apply_prefix. case_string p; simpl; auto 8. Qed.

Lemma apply_prefix_configurable v d p :
  (p = "final" /\ f_configurable (own (apply_prefix v d p)) = Some (VBool false))
  \/ (p <> "final" /\ f_configurable (own (apply_prefix v d p)) = f_configurable (own d)).
Proof. unfold apply_prefix. case_string p; simpl; auto. Qed.

Lemma fold_keeps_unwritable v prefixes : forall d,
  ~ In "writable" prefixes -> f_writable (own d) = Some (VBool false) ->
  f_writable (own (fold_left (apply_prefix v) prefixes d)) = Some (VBool false).
Proof.
  induction prefixes as [|p ps IH]; intros d Hno Hd; [done|]. simpl.
  apply IH; [intros ?; apply Hno; by right|].
  destruct (apply_prefix_writable v d p) as [[-> _]|[[_ ->]|(_ & _ & _ & ->)]]; try done.
  exfalso. apply Hno. by left.
Qed.

Lemma fold_const_or_final v prefixes : forall d,
  ~ In "writable" prefixes -> In "const" prefixes \/ In "final" prefixes ->
  f_writable (own (fold_left (apply_prefix v) prefixes d)) = Some (VBool false).
Proof.
  induction prefixes as [|p ps IH]; intros d Hno Hin; [by destruct Hin|]. simpl.
  assert (~ In "writable" ps) as Hno' by (intros ?; apply Hno; by right).
  destruct (apply_prefix_writable v d p) as [[-> _]|[[_ Hp]|(_ & Hc & Hf & _)]].
  - exfalso. apply Hno. by left.
  - by apply fold_keeps_unwritable.
  - apply IH; [done|]. destruct Hin as [[?|?]|[?|?]]; auto; congruence.
Qed.

Lemma fold_writable_wins v prefixes : forall d,
  StronglySorted string_le prefixes -> In "writable" prefixes ->
  f_writable (own (fold_left (apply_prefix v) prefixes d)) = Some (VBool true).
Proof.
  induction prefixes as [|p ps IH]; intros d Hsorted Hin; [done|]. simpl.
  apply StronglySorted_inv in Hsorted as [Hsorted Hp].
  destruct (in_dec string_dec "writable" ps) as [Hps|Hps]; [by apply IH|].
  destruct Hin as [->|?]; [|done].
  destruct (fold_prefixed v ps (apply_prefix v d "writable")) as [_ _ _ [->|Hlater] _];
    [done|].
  rewrite Forall_forall in Hp.
  destruct Hlater as [H|[H|H]]; [| |done];
    apply list_elem_of_In, Hp in H; by vm_compute in H.
Qed.

Lemma fold_final_fixes v prefixes : forall d,
  In "final" prefixes \/ f_configurable (own d) = Some (VBool false) ->
  f_configurable (own (fold_left (apply_prefix v) prefixes d)) = Some (VBool false).
Proof.
  induction prefixes as [|p ps IH]; intros d Hin; [by destruct Hin|]. simpl.
  apply IH.
  destruct (apply_prefix_configurable v d p) as [[-> ->]|[Hp ->]]; [by right|].
  destruct Hin as [[?|?]|?]; auto; congruence.
Qed.

(** X3. Whatever the order in which they are written, and whatever was known
    of the name before: [writable] among the prefixes of an entry leaves the
    property writable, also next to [const] or [final]; [final] leaves it not
    configurable; [const] or [final] without [writable] leave it not
    writable. *)
Theorem writable_wins_final_fixes properties defaultDescriptor k v prefixes bare :
  annotation k = Some (prefixes, bare) ->
  exists d,
    describe (properties ++ [(k, v)]) defaultDescriptor !! bare = Some d
    /\ (In "writable" prefixes -> f_writable (own d) = Some (VBool true))
    /\ (In "final" prefixes -> f_configurable (own d) = Some (VBool false))
    /\ (~ In "writable" prefixes -> In "const" prefixes \/ In "final" prefixes ->
        f_writable (own d) = Some (VBool false)).
Proof.
  intros Ha. rewrite describe_snoc, (describe_entry_annotated _ _ _ _ _ _ _ Ha).
  cbv zeta. rewrite lookup_insert_eq. eexists. split; [done|].
  set (start := default _ _).
  set (prefixed := fold_left (apply_prefix v) prefixes start).
  pose proof (hide_other (hiding_allowed defaultDescriptor) bare
                (accessor_or_value prefixed v).2 (accessor_or_value prefixed v).1)
    as (_ & _ & _ & _ & -> & ->).
  pose proof (accessor_or_value_flags prefixed v) as (_ & -> & ->).
  split; [|split].
  - intros Hin. apply fold_writable_wins; [by eapply annotation_sorted|done].
  - intros Hin. apply fold_final_fixes. by left.
  - intros Hno Hin. by apply fold_const_or_final.
Qed.

(** X3 at [{"(writable final) a": null}] and [{"(const) c": 1}]. *)
Lemma writable_wins_final_fixes_witness :
  (exists d, describe ([] ++ [("(writable final) a", VNull)]) None !! "a" = Some d
             /\ f_writable (own d) = Some (VBool true)
             /\ f_configurable (own d) = Some (VBool false))
  /\ (exists d, describe ([] ++ [("(const) c", VNum 1)]) None !! "c" = Some d
                /\ f_writable (own d) = Some (VBool false)).
Proof.
  split.
  - destruct (writable_wins_final_fixes [] None "(writable final) a" VNull
                ["final"; "writable"] "a" eq_refl) as (d & Hd & Hw & Hf & _).
    exists d. split; [exact Hd|]. split; [apply Hw|apply Hf]; simpl; tauto.
  - destruct (writable_wins_final_fixes [] None "(const) c" (VNum 1)
                ["const"] "c" eq_refl) as (d & Hd & _ & _ & Hc).
    exists d. split; [exact Hd|]. apply Hc; simpl; [|tauto].
    intros [?|[]]. done.
Defined.

(** ** Names without annotation *)





(** ** Accessors *)






(** ** Accessor descriptors and the host *)

Definition carries_accessor (d : PropertyDescriptor) : bool :=
  present (lookup_field f_get d) || present (lookup_field f_set d).

Lemma valued_descriptor_converted d v :
  f_value (own d) = Some v ->
  (carries_accessor d = true -> ToPropertyDescriptor d = Invalid)
  /\ ToPropertyDescriptor d <> Accessor.
Proof.
  intros Hv. unfold ToPropertyDescriptor, carries_accessor.
  destruct (negb (callable_or_undefined (lookup_field f_get d))
            || negb (callable_or_undefined (lookup_field f_set d))); [done|].
  destruct (present (lookup_field f_get d) || present (lookup_field f_set d)); [|done].
  unfold lookup_field at 1 3. by rewrite Hv.
Qed.

Lemma convert_all_refuses ds :
  (forall n d, In (n, d) ds -> exists v, f_value (own d) = Some v) ->
  (exists n d, In (n, d) ds /\ carries_accessor d = true) ->
  convert_all ds = Some None.
Proof.
  induction ds as [|[n d] ds IH]; intros Hvalued (n0 & d0 & Hin & Hacc); [done|]. simpl.
  destruct (Hvalued n d) as [v Hv]; [by left|].
  destruct (valued_descriptor_converted d v Hv) as [Hinvalid Hnot].
  destruct (ToPropertyDescriptor d) eqn:Hconv; [|done|done].
  destruct Hin as [[= -> ->]|Hin]; [by specialize (Hinvalid Hacc)|].
  rewrite IH; [done| |eauto]. intros n' d' Hin'. apply (Hvalued n' d'). by right.
Qed.

Lemma table_refused l (descriptors : table) st :
  (forall n d, descriptors !! n = Some d -> exists v, f_value (own d) = Some v) ->
  (exists n d, descriptors !! n = Some d /\ carries_accessor d = true) ->
  Object_defineProperties l descriptors st = Throw TypeError st.
Proof.
  intros Hvalued (n & d & Hd & Hacc). unfold Object_defineProperties.
  rewrite convert_all_refuses; [done| |].
  - intros n' d' Hin%list_elem_of_In%elem_of_map_to_list. eauto.
  - exists n, d. split; [|done]. by apply list_elem_of_In, elem_of_map_to_list.
Qed.

Lemma described_valued properties defaultDescriptor n d :
  describe properties defaultDescriptor !! n = Some d -> exists v, f_value (own d) = Some v.
Proof. intros Hd. by apply describe_described in Hd as [_ Hv _ _]. Qed.

(** X7. No accessor written through [describe] can be installed: when some
    descriptor of the table has a [get] or a [set], [defineProperties] throws
    a TypeError and leaves the store as it was, and [clone] with such
    properties throws a TypeError too. *)
Theorem accessors_refused this properties entries name d st :
  raw_properties (heap st) properties = Some entries ->
  describe entries None !! name = Some d ->
  carries_accessor d = true ->
  defineProperties this properties VUndefined st = Throw TypeError st
  /\ exists st', clone this [properties] st = Throw TypeError st'.
Proof.
  intros Hraw Hd Hacc.
  assert (describe_values properties VUndefined st = Normal (describe entries None) st)
    as Hvalues by (unfold describe_values; by rewrite Hraw).
  split.
  - unfold defineProperties. rewrite Hvalues. simpl.
    apply table_refused; [apply described_valued|eauto].
  - unfold clone. simpl nth. rewrite Hvalues. simpl.
    assert (forall st0, exists st',
               (let! (obj, st1) := Object_create (VObj this) (Some (describe entries None)) st0
                in Normal (VObj obj) st1) = Throw TypeError st') as Hplain.
    { intros st0. unfold Object_create, allocate.
      rewrite table_refused; [simpl; eauto|apply described_valued|eauto]. }
    destruct (describe entries None !! "constructor") as [dc|] eqn:Hdc; [|apply Hplain].
    set (dc' := if typeof (read f_value dc) =? "string"
                then set_value (VFun CustomType) dc else dc).
    assert (forall st0, exists st',
               (let! (obj, st1) :=
                  Object_create (VObj this)
                    (Some (<["constructor" := dc']> (describe entries None))) st0
                in Normal (VObj obj) st1) = Throw TypeError st') as Hreplaced.
    { intros st0. unfold Object_create, allocate.
      rewrite table_refused; [simpl; eauto| |].
      - intros n' d'. destruct (decide ("constructor" = n')) as [<-|Hne].
        + rewrite lookup_insert_eq. intros [= <-]. unfold dc'.
          destruct (typeof (read f_value dc) =? "string"); [simpl; eauto|].
          by eapply described_valued.
        + rewrite lookup_insert_ne by done. apply described_valued.
      - destruct (decide ("constructor" = name)) as [<-|Hne].
        + exists "constructor", dc'. rewrite lookup_insert_eq. split; [done|].
          assert (dc = d) as -> by congruence. unfold dc'.
          by destruct (typeof (read f_value d) =? "string").
        + exists name, d. by rewrite lookup_insert_ne. }
    destruct (read f_value dc') eqn:Hvalue; cbn [bind]; eauto; apply Hreplaced.
Qed.

(** X7 at [$object.clone({"(get) item": function(){}})]. *)
Lemma accessors_refused_witness :
  let '(properties, st) := literal [("(get) item", VFun (FUser "item" 0 []))] start in
  exists st', clone dollar_object [VObj properties] st = Throw TypeError st'.
Proof.
  simpl.
  eapply (proj2 (accessors_refused dollar_object (VObj 2)
                   [("(get) item", VFun (FUser "item" 0 []))] "item" _
                   (literal [("(get) item", VFun (FUser "item" 0 []))] start).2
                   ltac:(vm_compute; reflexivity) ltac:(vm_compute; reflexivity)
                   ltac:(vm_compute; reflexivity))).
Defined.

(** * Further properties of the delegation engine *)

(** Two stores that agree up to [l] show the same properties from [l]. *)
Lemma find_property_agree bound h1 h2 : forall l k,
  (forall l', l' <= l -> h1 !! l' = h2 !! l') ->
  find_property bound h1 l k = find_property bound h2 l k.
Proof.
  induction bound as [|b IH]; intros l k Hagree; [done|]. simpl.
  rewrite <- (Hagree l) by lia.
  destruct (h1 !! l) as [o|]; [|done].
  destruct (lookup_own k (props o)); [done|].
  destruct (proto o) as [parent|]; [|done].
  destruct (Nat.ltb_spec parent l); [|done].
  apply IH. intros l' Hl'. apply Hagree. lia.
Qed.

(** What [create] leaves when the constructor is the default one and no
    properties are passed. *)
Lemma create_default fuel this arguments st o :
  heap st !! this = Some o ->
  get (heap st) this "constructor" = VFun (FNative "CloneObject") ->
  truthy (nth 0 arguments VUndefined) = false ->
  create (call (S fuel)) this arguments st
  = Normal (VObj (List.length (heap st)))
      (with_heap st (heap st ++ [mkObject (Some this) [] false])).
Proof.
  intros Ho Hdefault Hnone.
  pose proof (lookup_lt_Some _ _ _ Ho) as Hlt.
  rewrite (create_unfold _ _ _ _ o) by done. cbv zeta. rewrite Hdefault. unfold apply.
  rewrite call_CloneObject, CloneObject_seals; [|done|simpl; by rewrite get_child].
  simpl. unfold seal. rewrite list_lookup_middle by done. simpl.
  by rewrite (insert_app_r_alt _ _ _ _ (le_n _)), Nat.sub_diag.
Qed.




(** X9. A constructor generated from a string hands none of the arguments of
    [create] to the constructor above: it calls [_applySuper(arguments)],
    where [arguments] is no Array, so the dispatch goes to [constructor]
    with no arguments, and [create] gives what it gives without arguments. *)
Theorem string_constructor_drops_arguments fuel this o arguments st :
  heap st !! this = Some o ->
  get (heap st) this "constructor" = VFun CustomType ->
  create (call fuel) this arguments st = create (call fuel) this [] st.
Proof.
  intros Ho Hctor. rewrite !(create_unfold _ _ _ _ o) by done. cbv zeta.
  rewrite Hctor. unfold apply. by destruct fuel.
Qed.

(** The store after [MyType = $object.clone({constructor: 'MyType'})] and the
    literal [{a: 1}]: [MyType] is in cell 3, the literal in cell 4. *)
Definition store_with_MyType : state :=
  match clone_with dollar_object [("constructor", VStr "MyType")] start with
  | Normal _ st => (literal [("a", VNum 1)] st).2
  | _ => start
  end.

(** X9 at [MyType.create({a: 1})]: the instance has no [a]. *)
Lemma string_constructor_drops_arguments_witness :
  get (heap store_with_MyType) 3 "constructor" = VFun CustomType
  /\ get (heap store_with_MyType) 4 "a" = VNum 1
  /\ exists instance st',
      create (call 3) 3 [VObj 4] store_with_MyType = Normal (VObj instance) st'
      /\ get (heap st') instance "a" = VUndefined.
Proof.
  split; [vm_compute; reflexivity|]. split; [vm_compute; reflexivity|].
  rewrite (string_constructor_drops_arguments 3 3
             (mkObject (Some dollar_object)
                [("constructor", mkProperty (VFun CustomType) true true true)] true));
    [|vm_compute; reflexivity|vm_compute; reflexivity].
  do 2 eexists. split; vm_compute; reflexivity.
Defined.

(** ** [getState] *)

(** [Object.keys(l)] *)
Definition keys (h : list object_cell) (l : loc) : list string :=
  match h !! l with
  | Some o => (filter (fun np => p_enumerable np.2 = true) (props o)).*1
  | None => []
  end.

(** [this.getState(listPrivate)] (lines 314-322): every own property of the
    receiver is assigned to a new object made by [$object.create()]. *)
Definition getState (call : fn -> loc -> list val -> state -> outcome val)
    (this : loc) (listPrivate : val) (st : state) : outcome val :=
  let! (currentState, st) := create call dollar_object [] st in
  let ownProperties :=
    if truthy listPrivate then getOwnPropertyNames (heap st) this else keys (heap st) this in
  match currentState with
  | VObj current =>
      Normal currentState
        (with_heap st
           (fold_left (fun h name => put h current name (get h this name)) ownProperties
              (heap st)))
  | VFun _ => Unmodelled
  | _ => Normal currentState st
  end.

Lemma assignments_dropped (value_of : list object_cell -> string -> val) names :
  forall h current parent,
    h !! current = Some (mkObject parent [] false) ->
    fold_left (fun h name => put h current name (value_of h name)) names h = h.
Proof.
  induction names as [|name names IH]; intros h current parent Hsealed; [done|]. simpl.
  destruct (sealed_empty_refuses h current parent Hsealed) as (_ & _ & Hput).
  rewrite Hput. by eapply IH.
Qed.

(** X10. As long as [$object] has its default constructor, [getState] returns
    an object without any own property, whatever the receiver holds and
    whatever [listPrivate] is: the object comes from [$object.create()], which
    seals it, and the assignments that follow are dropped. *)
Theorem getState_is_empty fuel this listPrivate st root :
  heap st !! dollar_object = Some root ->
  get (heap st) dollar_object "constructor" = VFun (FNative "CloneObject") ->
  getState (call (S fuel)) this listPrivate st
  = Normal (VObj (List.length (heap st)))
      (with_heap st (heap st ++ [mkObject (Some dollar_object) [] false])).
Proof.
  intros Hroot Hdefault. unfold getState.
  rewrite (create_default _ _ _ _ root) by done. cbn [bind].
  f_equal. unfold with_heap. simpl. f_equal.
  apply (assignments_dropped _ _ _ _ (Some dollar_object)).
  by rewrite list_lookup_middle.
Qed.

(** [source = $object.clone({a: 1, b: 2})] *)
Definition store_with_source : state :=
  match clone_with dollar_object [("a", VNum 1); ("b", VNum 2)] start with
  | Normal _ st => st
  | _ => start
  end.

(** X10 at [source.getState()], [source] holding [a] and [b] in cell 3. *)
Lemma getState_is_empty_witness :
  get (heap store_with_source) 3 "a" = VNum 1
  /\ exists state_object st',
      getState (call 1) 3 VUndefined store_with_source = Normal (VObj state_object) st'
      /\ getOwnPropertyNames (heap st') state_object = []
      /\ get (heap st') state_object "a" = VUndefined.
Proof.
  split; [vm_compute; reflexivity|].
  rewrite (getState_is_empty 0 3 VUndefined store_with_source
             (mkObject (Some Object_prototype) dollar_object_members true))
    by (vm_compute; reflexivity).
  do 2 eexists. split; [reflexivity|]. split; vm_compute; reflexivity.
Defined.

(** ** [copy] *)

Lemma define_each_plain run source target names : forall st,
  define_each run None true source (VObj target) names st
  = copy_own source target names st.
Proof.
  induction names as [|name names IH]; intros st; [done|]. simpl.
  destruct (getOwnProperty (heap st) source name) as [p|]; [|done].
  destruct (defineOwnProperty (heap st) target name (attributes_of p));
    simpl; [apply IH|done].
Qed.

(** Copying all own properties of an object onto a new object. *)
Lemma copy_own_fresh source so parent st :
  heap st !! source = Some so ->
  exists copied,
    copy_own source (List.length (heap st)) (getOwnPropertyNames (heap st) source)
      (with_heap st (heap st ++ [mkObject parent [] true]))
    = Normal tt (with_heap st (heap st ++ [copied]))
    /\ proto copied = parent /\ extensible copied = true
    /\ forall n, lookup_own n (props copied) = lookup_own n (props so).
Proof.
  intros Hso. pose proof (lookup_lt_Some _ _ _ Hso) as Hlt.
  unfold getOwnPropertyNames. rewrite Hso.
  set (h1 := heap st ++ [mkObject parent [] true]).
  destruct (copy_own_agree ((props so).*1) (with_heap st h1) source (List.length (heap st))
              so (mkObject parent [] true))
    as (copied & Hcopy & Hproto & Hext & Hag & _ & Hcover); simpl; try done.
  - lia.
  - unfold h1. by rewrite lookup_app_l.
  - unfold h1. by rewrite list_lookup_middle.
  - intros n. apply lookup_own_names.
  - exists copied. rewrite Hcopy. simpl.
    assert (<[List.length (heap st) := copied]> h1 = heap st ++ [copied]) as ->.
    { unfold h1. by rewrite (insert_app_r_alt _ _ _ _ (le_n _)), Nat.sub_diag. }
    split; [by destruct st|]. split; [done|]. split; [done|].
    intros n. destruct (lookup_own n (props so)) as [p|] eqn:Hp.
    + destruct (Hcover n) as [q Hq]; [exact (lookup_own_In _ _ _ Hp)|].
      rewrite Hq. apply Hag in Hq. congruence.
    + destruct (lookup_own n (props copied)) as [q|] eqn:Hq; [|done].
      apply Hag in Hq. congruence.
Qed.

(** X11. [copy] with [mixParents] true (and nothing else) returns a new object
    under [$object] that has, name by name, the own properties of the
    receiver with their attributes; the receiver and the rest of the store
    are left as they were. *)
Theorem copy_mixParents run this o st :
  heap st !! this = Some o ->
  exists copied,
    copy run this [VUndefined; VUndefined; VUndefined; VBool true] st
    = Normal (VObj (List.length (heap st))) (with_heap st (heap st ++ [copied]))
    /\ proto copied = Some dollar_object
    /\ forall n, lookup_own n (props copied) = lookup_own n (props o).
Proof.
  intros Ho. pose proof (lookup_lt_Some _ _ _ Ho) as Hlt.
  destruct (copy_own_fresh this o (Some dollar_object) st Ho)
    as (copied & Hcopy & Hproto & _ & Hsame).
  exists copied. split; [|done].
  unfold copy. simpl sort_arguments. cbn [nth]. simpl loose_neq_string. cbn [orb].
  change (typeof VUndefined =? "undefined") with true. cbv iota.
  unfold Object_create, allocate. cbn [bind heap with_heap].
  cbn [copy_levels truthy negb andb]. cbn [bind heap with_heap post_decrement].
  rewrite define_each_plain.
  assert (getOwnPropertyNames (heap st ++ [mkObject (Some dollar_object) [] true]) this
          = getOwnPropertyNames (heap st) this) as ->.
  { unfold getOwnPropertyNames. by rewrite lookup_app_l. }
  unfold with_heap in Hcopy. simpl in Hcopy. unfold with_heap. simpl.
  rewrite Hcopy. cbn [bind].
  unfold getPrototypeOf. simpl. rewrite lookup_app_l, Ho by done.
  by destruct (proto o).
Qed.

(** X11 at [source.copy(undefined, undefined, undefined, true)]. *)
Lemma copy_mixParents_witness :
  exists copied,
    copy (call 0) 3 [VUndefined; VUndefined; VUndefined; VBool true] store_with_source
    = Normal (VObj 4) (with_heap store_with_source (heap store_with_source ++ [copied]))
    /\ lookup_own "a" (props copied) = Some (mkProperty (VNum 1) true true true).
Proof.
  destruct (copy_mixParents (call 0) 3
              (mkObject (Some dollar_object)
                 [("a", mkProperty (VNum 1) true true true);
                  ("b", mkProperty (VNum 2) true true true)] true)
              store_with_source ltac:(vm_compute; reflexivity))
    as (copied & Hcopy & _ & Hsame).
  exists copied. split; [exact Hcopy|]. by rewrite Hsame.
Defined.

Lemma call_clone fuel this arguments st :
  call (S fuel) (FNative "clone") this arguments st = clone this arguments st.
Proof. done. Qed.

(** X12. [copy] without arguments returns a new object under [$object] that
    has no own property at all: the properties of the receiver are defined on
    a clone of that object, and the clone is not what is returned.  Nothing
    that was in the store changes. *)
Theorem copy_default_is_empty fuel this o root st :
  heap st !! dollar_object = Some root ->
  get (heap st) dollar_object "clone" = VFun (FNative "clone") ->
  heap st !! this = Some o ->
  exists st',
    copy (call (S fuel)) this [] st = Normal (VObj (List.length (heap st))) st'
    /\ heap st' !! List.length (heap st) = Some (mkObject (Some dollar_object) [] true)
    /\ exists more, heap st' = heap st ++ mkObject (Some dollar_object) [] true :: more.
Proof.
  intros Hroot Hclone Ho.
  pose proof (lookup_lt_Some _ _ _ Ho) as Hlt.
  pose proof (lookup_lt_Some _ _ _ Hroot) as Hltroot.
  unfold copy. simpl sort_arguments. cbn [nth]. simpl loose_neq_string. cbn [orb].
  change (typeof VUndefined =? "undefined") with true. cbv iota.
  unfold Object_create, allocate. cbn [bind heap with_heap].
  set (fresh := mkObject (Some dollar_object) [] true).
  set (st1 := with_heap st (heap st ++ [fresh])).
  cbn [copy_levels truthy negb andb].
  assert (getOwnPropertyNames (heap st1) this = (props o).*1) as Hnames.
  { unfold getOwnPropertyNames, st1. simpl. by rewrite lookup_app_l, Ho. }
  rewrite Hnames. destruct (props o) as [|np ps] eqn:Hprops.
  - simpl. cbn [bind]. exists st1. split; [|split].
    + unfold getPrototypeOf, st1. simpl. rewrite lookup_app_l, Ho by done.
      by destruct (proto o).
    + unfold st1. simpl. by rewrite list_lookup_middle.
    + by exists [].
  - change (negb (List.length ((np :: ps).*1) =? 0)%nat) with true. cbv iota.
    unfold do_.
    assert (get (heap st1) (List.length (heap st)) "clone" = VFun (FNative "clone")) as ->.
    { unfold st1, fresh. simpl. by rewrite get_child. }
    assert (get (heap st1) dollar_object "clone" = VFun (FNative "clone")) as ->.
    { unfold st1. simpl. by rewrite get_grow. }
    rewrite Nat.eqb_refl, call_clone, clone_no_arguments. cbn [bind].
    destruct (copy_own_fresh this o (Some (List.length (heap st))) st1)
      as (copied & Hcopy & _ & _ & _).
    { unfold st1. simpl. by rewrite lookup_app_l. }
    assert (List.length (heap st1) = S (List.length (heap st))) as Hlen.
    { unfold st1. simpl. rewrite length_app. simpl. lia. }
    rewrite define_each_plain.
    rewrite Hnames in Hcopy.
    exists (with_heap st1 (heap st1 ++ [copied])). split; [|split].
    + rewrite Hcopy. cbn [bind]. unfold getPrototypeOf, st1. simpl.
      rewrite <- app_assoc, lookup_app_l, Ho by done. by destruct (proto o).
    + simpl. unfold st1. simpl. rewrite <- app_assoc. by apply list_lookup_middle.
    + exists [copied]. simpl. unfold st1. simpl. by rewrite <- app_assoc.
Qed.

(** X12 at [source.copy()], [source] holding [a] and [b] in cell 3: the
    returned object 4 has no [a]. *)
Lemma copy_default_is_empty_witness :
  get (heap store_with_source) 3 "a" = VNum 1
  /\ exists st',
      copy (call 1) 3 [] store_with_source = Normal (VObj 4) st'
      /\ getOwnPropertyNames (heap st') 4 = []
      /\ get (heap st') 4 "a" = VUndefined.
Proof.
  split; [vm_compute; reflexivity|].
  destruct (copy_default_is_empty 0 3
              (mkObject (Some dollar_object)
                 [("a", mkProperty (VNum 1) true true true);
                  ("b", mkProperty (VNum 2) true true true)] true)
              (mkObject (Some Object_prototype) dollar_object_members true)
              store_with_source
              ltac:(vm_compute; reflexivity) ltac:(vm_compute; reflexivity)
              ltac:(vm_compute; reflexivity))
    as (st' & Hcopy & Hcell & _).
  exists st'. split; [exact Hcopy|].
  change (List.length (heap store_with_source)) with 4 in Hcell.
  split.
  - unfold getOwnPropertyNames. by rewrite Hcell.
  - revert Hcopy. vm_compute. intros [= <-]. reflexivity.
Defined.

(** X13. The loop that sorts the arguments of [copy] by type reads
    [arguments], which the assignments to the formal parameters change too.
    A first argument that is an object becomes [rootPrototype], that is the
    second argument, so the loop reads the object again in place of the
    second argument, which is never seen.  A second argument that is a
    boolean, a number or a string, after a first one that is not an object,
    stays the [rootPrototype] and [Object.create] throws. *)
Theorem copy_second_argument run this st :
  (forall root second,
      copy run this [VObj root; second] st = copy run this [VObj root] st)
  /\ (forall first second,
        typeof first <> "object" ->
        typeof second = "boolean" \/ typeof second = "number" \/ typeof second = "string" ->
        copy run this [first; second] st = Throw TypeError st).
Proof.
  split.
  - intros root second. reflexivity.
  - intros first second Hfirst Hsecond.
    destruct second; simpl in Hsecond;
      try (by destruct Hsecond as [?|[?|?]]);
      destruct first; try done.
Qed.

(** X13 at [source.copy(true, 5)]. *)
Lemma copy_second_argument_witness :
  copy (call 1) 3 [VBool true; VNum 5] store_with_source
  = Throw TypeError store_with_source.
Proof.
  apply (copy_second_argument (call 1) 3 store_with_source).
  - by vm_compute.
  - right. left. reflexivity.
Defined.

(** ** [mix] over a list of any length *)

(** The own property [k] of the first of [sources] that has one. *)
Fixpoint first_own (h : list object_cell) (sources : list loc) (k : string) : option property :=
  match sources with
  | [] => None
  | s :: rest =>
      match getOwnProperty h s k with
      | Some p => Some p
      | None => first_own h rest k
      end
  end.

Lemma first_own_snoc h sources s k :
  first_own h (sources ++ [s]) k
  = match first_own h sources k with
    | Some p => Some p
    | None => getOwnProperty h s k
    end.
Proof.
  induction sources as [|s' sources IH]; simpl.
  - by destruct (getOwnProperty h s k).
  - by destruct (getOwnProperty h s' k).
Qed.

Lemma first_own_grow h more sources k :
  Forall (fun s => is_Some (h !! s)) sources ->
  first_own (h ++ more) sources k = first_own h sources k.
Proof.
  induction 1 as [|s sources [o Ho] _ IH]; simpl; [done|].
  unfold getOwnProperty. rewrite lookup_app_l by (by eapply lookup_lt_Some).
  by rewrite IH.
Qed.

(** An object on top of the store reads its own property, or else what its
    parent reads. *)
Lemma get_layer h layer parent k :
  parent < List.length h -> proto layer = Some parent ->
  get (h ++ [layer]) (List.length h) k
  = match lookup_own k (props layer) with
    | Some p => p_value p
    | None => get h parent k
    end.
Proof.
  intros Hp Hproto. unfold get, getProperty. simpl.
  rewrite list_lookup_middle by done.
  destruct (lookup_own k (props layer)); [done|].
  rewrite Hproto. destruct (Nat.ltb_spec parent (List.length h)); [|lia].
  rewrite find_property_grow by done.
  by rewrite (find_property_bound (List.length h) (S parent)) by lia.
Qed.

(** A source without own properties adds no layer. *)
Lemma mix_each_empty st this source so rest :
  heap st !! source = Some so -> props so = [] ->
  mix_each (VBool true) (VObj source :: rest) this st = mix_each (VBool true) rest this st.
Proof.
  intros Hso Hprops. simpl. unfold getOwnPropertyNames. by rewrite Hso, Hprops.
Qed.

(** The loop of [mix] over the reversed list: what the result reads. *)
Lemma mix_each_reads sources : forall st this,
  this < List.length (heap st) ->
  Forall (fun s => is_Some (heap st !! s)) sources ->
  exists mixed st',
    mix_each (VBool true) (VObj <$> reverse sources) this st = Normal (VObj mixed) st'
    /\ mixed < List.length (heap st')
    /\ forall k,
        get (heap st') mixed k
        = match first_own (heap st) sources k with
          | Some p => p_value p
          | None => get (heap st) this k
          end.
Proof.
  induction sources as [|s sources IH] using rev_ind; intros st this Hthis Hsources.
  - exists this, st. by simpl.
  - apply Forall_app in Hsources as [Hsources Hs].
    apply Forall_cons in Hs as [[so Hso] _].
    rewrite reverse_snoc, fmap_cons.
    destruct (decide (props so = [])) as [Hempty|Hprops].
    + rewrite (mix_each_empty st this s so) by done.
      destruct (IH st this Hthis Hsources) as (mixed & st' & Hmix & Hlt & Hget).
      exists mixed, st'. split; [done|]. split; [done|].
      intros k. rewrite Hget, first_own_snoc.
      destruct (first_own (heap st) sources k); [done|].
      unfold getOwnProperty. by rewrite Hso, Hempty.
    + destruct (mix_each_nested st this s so (VObj <$> reverse sources) Hso Hprops)
        as (layer & -> & Hproto & Hlayer).
      destruct (IH (with_heap st (heap st ++ [layer])) (List.length (heap st)))
        as (mixed & st' & Hmix & Hlt & Hget).
      { simpl. rewrite length_app. simpl. lia. }
      { simpl. eapply Forall_impl; [exact Hsources|].
        intros s' [o' Ho']. exists o'. rewrite lookup_app_l; [done|].
        by eapply lookup_lt_Some. }
      exists mixed, st'. split; [done|]. split; [done|].
      intros k. rewrite Hget, first_own_snoc. simpl.
      rewrite first_own_grow by done.
      destruct (first_own (heap st) sources k); [done|].
      rewrite (get_layer _ _ this) by done. rewrite Hlayer.
      unfold getOwnProperty. rewrite Hso.
      by destruct (lookup_own k (props so)).
Qed.

(** X14. [this.mix(sources)] over an array of objects of any length: the
    result reads every name from the first listed source that has it as an
    own property, and the names that no source has as the receiver reads
    them. *)
Theorem mix_reads_first_listed st this sources :
  this < List.length (heap st) ->
  Forall (fun s => is_Some (heap st !! s)) sources ->
  exists mixed st',
    mix this (MixArray (VObj <$> sources)) VUndefined VUndefined st = Normal (VObj mixed) st'
    /\ forall k,
        get (heap st') mixed k
        = match first_own (heap st) sources k with
          | Some p => p_value p
          | None => get (heap st) this k
          end.
Proof.
  intros Hthis Hsources.
  destruct (mix_each_reads sources st this Hthis Hsources) as (mixed & st' & Hmix & _ & Hget).
  exists mixed, st'. split; [|done].
  unfold mix. simpl. by rewrite <- fmap_reverse.
Qed.

(** [{a: 1}], [{a: 2, b: 2}], [{}] and [{b: 3, c: 3}] in cells 2 to 5. *)
Definition four_sources : state :=
  let '(_, st) := literal [("a", VNum 1)] start in
  let '(_, st) := literal [("a", VNum 2); ("b", VNum 2)] st in
  let '(_, st) := literal [] st in
  let '(_, st) := literal [("b", VNum 3); ("c", VNum 3)] st in
  st.

(** X14 at [$object.mix([{a: 1}, {a: 2, b: 2}, {}, {b: 3, c: 3}])]. *)
Lemma mix_reads_first_listed_witness :
  exists mixed st',
    mix dollar_object (MixArray [VObj 2; VObj 3; VObj 4; VObj 5]) VUndefined VUndefined
      four_sources
    = Normal (VObj mixed) st'
    /\ get (heap st') mixed "a" = VNum 1
    /\ get (heap st') mixed "b" = VNum 2
    /\ get (heap st') mixed "c" = VNum 3
    /\ get (heap st') mixed "clone" = VFun (FNative "clone").
Proof.
  destruct (mix_reads_first_listed four_sources dollar_object [2; 3; 4; 5])
    as (mixed & st' & Hmix & Hget).
  - vm_compute. lia.
  - repeat constructor; vm_compute; eauto.
  - exists mixed, st'. split; [exact Hmix|].
    rewrite !Hget. repeat split; vm_compute; reflexivity.
Defined.

(** Lines 1090-1094 on a target that has the names copied, if at all, as the
    source has them: the names copied read as in the source, the others as
    before. *)
Lemma copy_own_onto names : forall st source target so to,
  source <> target ->
  heap st !! source = Some so -> heap st !! target = Some to ->
  extensible to = true ->
  (forall n, In n names -> is_Some (lookup_own n (props so))) ->
  (forall n q, In n names -> lookup_own n (props to) = Some q ->
               lookup_own n (props so) = Some q) ->
  exists to',
    copy_own source target names st = Normal tt (with_heap st (<[target := to']> (heap st)))
    /\ proto to' = proto to /\ extensible to' = true
    /\ (forall n, In n names -> lookup_own n (props to') = lookup_own n (props so))
    /\ (forall n, ~ In n names -> lookup_own n (props to') = lookup_own n (props to)).
Proof.
  induction names as [|name names IH];
    intros st source target so to Hne Hso Hto Hext Hnames Hsame.
  - exists to. simpl. rewrite list_insert_id by done.
    destruct st; simpl. repeat split; auto. intros ? [].
  - simpl. unfold getOwnProperty. rewrite Hso.
    destruct (Hnames name) as [p Hp]; [by left|]. rewrite Hp. simpl.
    rewrite (define_from_source _ _ to) by
      (try done; intros q Hq; apply (Hsame name q (or_introl eq_refl)) in Hq; congruence).
    simpl.
    set (to1 := set_props to (store_own name p (props to))).
    destruct (IH (with_heap st (<[target := to1]> (heap st))) source target so to1)
      as (to' & Hcopy & Hproto & Hext' & Hin & Hout); simpl; try done.
    + by rewrite list_lookup_insert_ne.
    + apply list_lookup_insert_eq. by eapply lookup_lt_Some.
    + intros n Hn. apply Hnames. by right.
    + intros n q Hn. destruct (decide (name = n)) as [<-|Hdiff].
      * rewrite lookup_own_store_own. congruence.
      * rewrite lookup_own_store_own_ne by done. apply Hsame. by right.
    + exists to'. rewrite Hcopy. simpl. rewrite list_insert_insert_eq.
      split; [done|]. split; [done|]. split; [done|]. split.
      * intros n [<-|Hn]; [|by apply Hin].
        destruct (in_dec string_dec name names) as [Hagain|Hfirst]; [by apply Hin|].
        rewrite Hout by done. simpl. by rewrite lookup_own_store_own.
      * intros n Hn. rewrite Hout by (intros ?; apply Hn; by right).
        simpl. apply lookup_own_store_own_ne. intros ->. apply Hn. by left.
Qed.

Lemma lookup_own_other k n p : k <> n -> lookup_own n [(k, p)] = None.
Proof. intros Hn. simpl. apply String.eqb_neq in Hn. by rewrite Hn. Qed.

(** X15. [this.mix(source, false)] makes no object: it returns the receiver
    itself, on which every own property of the source is now defined, with
    its attributes; the receiver keeps its other properties and its
    prototype.  The receiver is extensible and has none of the names of the
    source. *)
Theorem mix_flat_changes_receiver this source so to st :
  source <> this ->
  heap st !! source = Some so -> heap st !! this = Some to ->
  extensible to = true ->
  (forall n, is_Some (lookup_own n (props so)) -> lookup_own n (props to) = None) ->
  exists to',
    mix this (MixObject (VObj source)) (VBool false) VUndefined st
    = Normal (VObj this) (with_heap st (<[this := to']> (heap st)))
    /\ proto to' = proto to
    /\ forall n, lookup_own n (props to')
                 = match lookup_own n (props so) with
                   | Some p => Some p
                   | None => lookup_own n (props to)
                   end.
Proof.
  intros Hne Hso Hto Hext Hfree.
  destruct (copy_own_onto ((props so).*1) st source this so to)
    as (to' & Hcopy & Hproto & _ & Hin & Hout); try done.
  - intros n. apply lookup_own_names.
  - intros n q Hn Hq. rewrite Hfree in Hq; [done|]. by apply lookup_own_names.
  - exists to'. split; [|split; [done|]].
    + unfold mix. simpl. unfold getOwnPropertyNames. rewrite Hso.
      cbn [bind]. rewrite Hcopy. by simpl.
    + intros n. destruct (lookup_own n (props so)) as [p|] eqn:Hp.
      * rewrite Hin, Hp; [done|]. by eapply lookup_own_In.
      * apply Hout. intros Hn. apply lookup_own_names in Hn as [? ?]. congruence.
Qed.

(** X15 at [target.mix(source, false)], [target = {t: 0}] in cell 4 and
    [source] holding [a] and [b] in cell 3. *)
Lemma mix_flat_changes_receiver_witness :
  let st := (literal [("t", VNum 0)] store_with_source).2 in
  exists st',
    mix 4 (MixObject (VObj 3)) (VBool false) VUndefined st = Normal (VObj 4) st'
    /\ List.length (heap st') = List.length (heap st)
    /\ get (heap st') 4 "a" = VNum 1
    /\ get (heap st') 4 "t" = VNum 0.
Proof.
  intros st.
  destruct (mix_flat_changes_receiver 4 3
              (mkObject (Some dollar_object)
                 [("a", mkProperty (VNum 1) true true true);
                  ("b", mkProperty (VNum 2) true true true)] true)
              (mkObject (Some Object_prototype) [("t", mkProperty (VNum 0) true true true)] true)
              st)
    as (to' & Hmix & _ & Hprops).
  - done.
  - vm_compute. reflexivity.
  - vm_compute. reflexivity.
  - reflexivity.
  - intros n [p Hp]. destruct (decide ("t" = n)) as [<-|Hn]; [by vm_compute in Hp|].
    by apply lookup_own_other.
  - eexists. split; [exact Hmix|]. split; [|split].
    + simpl. by rewrite length_insert.
    + rewrite (get_own _ 4 "a" to' (mkProperty (VNum 1) true true true)); [done| |].
      * apply list_lookup_insert_eq. vm_compute. lia.
      * by rewrite Hprops.
    + rewrite (get_own _ 4 "t" to' (mkProperty (VNum 0) true true true)); [done| |].
      * apply list_lookup_insert_eq. vm_compute. lia.
      * by rewrite Hprops.
Defined.

(** ** [createSuperSafeCallback] *)

(** What the function [superSafeCallback] keeps of the call that made it. *)
Record callback := mkCallback {
  cb_self : loc;
  cb_callbackSuper : val;
  cb_fn : val;
  cb_boundThis : val
}.

(** [this.createSuperSafeCallback(functionOrMethodName, boundThis)] *)
Definition createSuperSafeCallback (this : loc) (functionOrMethodName boundThis : val)
    (st : state) : callback :=
  let '(fn, boundThis) :=
    match functionOrMethodName with
    | VStr name =>
        (get (heap st) this name,
         if typeof boundThis =? "undefined" then VObj this else boundThis)
    | _ => (functionOrMethodName, boundThis)
    end in
  mkCallback this (get (heap st) this "__super__") fn boundThis.

(** The function returned, called on [this] with [arguments]. *)
Definition superSafeCallback (run : fn -> loc -> list val -> state -> outcome val)
    (c : callback) (this : val) (arguments : list val) (st : state) : outcome val :=
  match (if truthy (cb_boundThis c) then cb_boundThis c else this) with
  | VObj receiver =>
      if strict_eqb (get (heap st) (cb_self c) "__super__") (cb_callbackSuper c) then
        apply run (cb_fn c) receiver arguments st
      else
        let savedSuper := get (heap st) (cb_self c) "__super__" in
        let st := with_heap st (put (heap st) (cb_self c) "__super__" (cb_callbackSuper c)) in
        let! (returned, st) := apply run (cb_fn c) receiver arguments st in
        Normal returned (with_heap st (put (heap st) (cb_self c) "__super__" savedSuper))
  | _ => Unmodelled
  end.

(** An assignment that is allowed takes effect, and stays allowed. *)
Lemma canPut_put h l k v : canPut h l k = true -> canPut (put h l k v) l k = true.
Proof.
  intros Hcan. unfold put. destruct (h !! l) as [o|] eqn:Ho; [|done]. rewrite Hcan.
  pose proof (lookup_lt_Some _ _ _ Ho) as Hl.
  unfold canPut in *. rewrite Ho in Hcan.
  destruct (lookup_own k (props o)) as [p|] eqn:Hp;
    rewrite list_lookup_insert_eq by done; simpl; rewrite lookup_own_store_own; done.
Qed.

Lemma get_put_allowed h l k v : canPut h l k = true -> get (put h l k v) l k = v.
Proof. intros Hcan. by apply get_put, canPut_put. Qed.

(** X16. A callback called while the cursor of the object that made it
    differs from the cursor kept: the function runs with the kept cursor in
    place; when it returns (the cursor still being assignable) the cursor is
    put back to what it was at the call; when it throws, the error leaves in
    the state the function left, the cursor not put back. *)
Theorem superSafeCallback_cursor run c this arguments st receiver :
  (if truthy (cb_boundThis c) then cb_boundThis c else this) = VObj receiver ->
  strict_eqb (cursor st (cb_self c)) (cb_callbackSuper c) = false ->
  canPut (heap st) (cb_self c) "__super__" = true ->
  let inner := with_heap st (put (heap st) (cb_self c) "__super__" (cb_callbackSuper c)) in
  cursor inner (cb_self c) = cb_callbackSuper c
  /\ (forall returned st',
         apply run (cb_fn c) receiver arguments inner = Normal returned st' ->
         canPut (heap st') (cb_self c) "__super__" = true ->
         exists st'',
           superSafeCallback run c this arguments st = Normal returned st''
           /\ cursor st'' (cb_self c) = cursor st (cb_self c))
  /\ (forall e st',
         apply run (cb_fn c) receiver arguments inner = Throw e st' ->
         superSafeCallback run c this arguments st = Throw e st').
Proof.
  intros Hreceiver Hdiffers Hcan inner. unfold cursor in *.
  split; [|split].
  - unfold inner. simpl. by apply get_put_allowed.
  - intros returned st' Hrun Hcan'. unfold superSafeCallback.
    rewrite Hreceiver, Hdiffers. fold inner. rewrite Hrun. cbn [bind].
    eexists. split; [done|]. simpl. by apply get_put_allowed.
  - intros e st' Hrun. unfold superSafeCallback.
    rewrite Hreceiver, Hdiffers. fold inner. by rewrite Hrun.
Qed.

(** X17. A callback called in the store in which it was made applies the
    function and leaves the cursor alone.  Made from a method name without
    [boundThis], it applies the method of that name to the object that made
    it, whatever it is called on. *)
Theorem superSafeCallback_fresh run self st :
  (forall functionOrMethodName boundThis this arguments receiver,
      let c := createSuperSafeCallback self functionOrMethodName boundThis st in
      (if truthy (cb_boundThis c) then cb_boundThis c else this) = VObj receiver ->
      superSafeCallback run c this arguments st = apply run (cb_fn c) receiver arguments st)
  /\ (forall name this arguments st',
        let c := createSuperSafeCallback self (VStr name) VUndefined st in
        cb_fn c = get (heap st) self name
        /\ superSafeCallback run c this arguments st'
           = superSafeCallback run c (VObj self) arguments st').
Proof.
  split.
  - intros functionOrMethodName boundThis this arguments receiver c Hreceiver.
    unfold superSafeCallback. rewrite Hreceiver.
    assert (cb_callbackSuper c = get (heap st) self "__super__") as ->
      by (unfold c, createSuperSafeCallback; by destruct functionOrMethodName).
    assert (cb_self c = self) as ->
      by (unfold c, createSuperSafeCallback; by destruct functionOrMethodName).
    by rewrite strict_eqb_refl.
  - intros name this arguments st' c. done.
Qed.

(** The chain of [chain_with_boom] after [instance._applySuper('ok')] has
    returned: the cursor of the instance, cell 4, is [A], cell 2. *)
Definition store_after_dispatch : state :=
  match _applySuper (call 2) 4 (ArgString "ok") None chain_with_boom.2 with
  | Normal _ st => st
  | _ => start
  end.

(** X16 at [callback = instance.createSuperSafeCallback('ok')], called once
    the cursor of the instance has moved on to [$object]. *)
Lemma superSafeCallback_cursor_witness :
  let c := createSuperSafeCallback 4 (VStr "ok") VUndefined store_after_dispatch in
  let later :=
    with_heap store_after_dispatch
      (put (heap store_after_dispatch) 4 "__super__" (VObj dollar_object)) in
  cb_callbackSuper c = VObj 2
  /\ cursor later 4 = VObj dollar_object
  /\ exists st'',
      superSafeCallback (call 1) c VUndefined [] later = Normal VUndefined st''
      /\ cursor st'' 4 = VObj dollar_object.
Proof.
  intros c later.
  split; [vm_compute; reflexivity|]. split; [vm_compute; reflexivity|].
  destruct (superSafeCallback_cursor (call 1) c VUndefined [] later 4)
    as (_ & Hreturns & _); [reflexivity | vm_compute; reflexivity | vm_compute; reflexivity |].
  destruct (Hreturns VUndefined
              (with_heap later (put (heap later) 4 "__super__" (VObj 2))))
    as (st'' & Hcall & Hcursor); [vm_compute; reflexivity | vm_compute; reflexivity |].
  exists st''. split; [exact Hcall|].
  change (cursor st'' 4) with (cursor st'' (cb_self c)). rewrite Hcursor.
  vm_compute. reflexivity.
Defined.

(** X17 at the same callback, called at once on another object. *)
Lemma superSafeCallback_fresh_witness :
  let c := createSuperSafeCallback 4 (VStr "ok") VUndefined store_after_dispatch in
  superSafeCallback (call 1) c (VObj 3) [] store_after_dispatch
  = Normal VUndefined store_after_dispatch.
Proof.
  intros c. unfold c.
  rewrite (proj1 (superSafeCallback_fresh (call 1) 4 store_after_dispatch)
             (VStr "ok") VUndefined (VObj 3) [] 4 eq_refl).
  vm_compute. reflexivity.
Defined.

(** ** [can] and [cant] *)

(** What the functions of the object returned by [can] keep of the call. *)
Record ability := mkAbility {
  ab_obj1 : loc;
  ab_method : string;
  ab_not : val
}.

(** [this.can(method, not)] *)
Definition can (this : loc) (method : string) (not : val) : ability :=
  mkAbility this method not.

(** [this.cant(method)] *)
Definition cant (this : loc) (method : string) (st : state) : outcome ability :=
  match get (heap st) this "can" with
  | VFun (FNative name) =>
      if name =? "can" then Normal (can this method (VNum 1)) st else Unmodelled
  | VFun _ => Unmodelled
  | _ => Throw TypeError st
  end.

(** The operand of a bit operation as a 32-bit integer. *)
Definition ToInt32 (v : val) : option Z :=
  match v with
  | VUndefined | VNull | VInfinity => Some 0%Z
  | VBool b => Some (if b then 1 else 0)%Z
  | VNum n => Some ((n + 2 ^ 31) mod 2 ^ 32 - 2 ^ 31)%Z
  | VStr s => if s =? "" then Some 0%Z else None
  | VFun _ | VObj _ => None
  end.

(** [not ^ b] for a boolean [b] *)
Definition xor_not (not : val) (b : bool) (st : state) : outcome val :=
  match ToInt32 not with
  | Some n => Normal (VNum (Z.lxor n (if b then 1 else 0))) st
  | None => Unmodelled
  end.

(** [valueOf()] of the object returned by [can] *)
Definition valueOf (a : ability) (st : state) : outcome val :=
  xor_not (ab_not a) (typeof (get (heap st) (ab_obj1 a) (ab_method a)) =? "function") st.

(** [like(obj2)] of the object returned by [can] *)
Definition like (a : ability) (obj2 : val) (st : state) : outcome val :=
  match obj2 with
  | VObj l2 =>
      let obj2Method := get (heap st) l2 (ab_method a) in
      let! (able, st) := valueOf a st in
      if truthy able then
        match obj2Method with
        | VFun f2 =>
            match get (heap st) (ab_obj1 a) (ab_method a) with
            | VFun f1 => xor_not (ab_not a) (fn_length f2 =? fn_length f1)%nat st
            | VStr s => xor_not (ab_not a) (fn_length f2 =? String.length s)%nat st
            | VUndefined | VNull => Throw TypeError st
            | VBool _ | VNum _ | VInfinity => xor_not (ab_not a) false st
            | VObj _ => Unmodelled
            end
        | _ => xor_not (ab_not a) false st
        end
      else Normal able st
  | VUndefined | VNull => Throw TypeError st
  | _ => Unmodelled
  end.

(** [as(obj2)] of the object returned by [can] *)
Definition as_ (a : ability) (obj2 : val) (st : state) : outcome val :=
  let! (able, st) := valueOf a st in
  if truthy able then
    match obj2 with
    | VObj l2 =>
        xor_not (ab_not a)
          (strict_eqb (get (heap st) (ab_obj1 a) (ab_method a)) (get (heap st) l2 (ab_method a)))
          st
    | VUndefined | VNull => Throw TypeError st
    | _ => Unmodelled
    end
  else Normal able st.

(** X18. [can(method)] and [cant(method)] answer with the numbers 0 and 1,
    not with booleans, and with opposite ones: [can] with 1 exactly when the
    object reads [method] as a function. *)
Theorem can_cant_valueOf this method st :
  get (heap st) this "can" = VFun (FNative "can") ->
  exists unable yes no,
    cant this method st = Normal unable st
    /\ valueOf (can this method VUndefined) st = Normal (VNum yes) st
    /\ valueOf unable st = Normal (VNum no) st
    /\ (yes + no = 1)%Z
    /\ (yes = 1%Z <-> typeof (get (heap st) this method) = "function").
Proof.
  intros Hcan. unfold cant, valueOf, xor_not. rewrite Hcan. simpl.
  destruct (typeof (get (heap st) this method) =? "function") eqn:Hfunction.
  - apply String.eqb_eq in Hfunction as Htype.
    exists (can this method (VNum 1)), 1%Z, 0%Z. simpl. rewrite Hfunction.
    do 4 (split; [done|]). by split.
  - apply String.eqb_neq in Hfunction as Htype.
    exists (can this method (VNum 1)), 0%Z, 1%Z. simpl. rewrite Hfunction.
    do 4 (split; [done|]). by split.
Qed.

(** X19. [obj1.can(method).like(obj2)] is 1 exactly when both objects read
    [method] as a function and the two functions have the same number of
    parameters, else 0.  [cant(method).like(obj2)] is not its opposite: when
    the numbers of parameters differ both are 0, and when [obj1] reads
    nothing under [method] while [obj2] reads a function, it throws. *)
Theorem like_compares_parameters obj1 obj2 method st :
  (exists answer,
      like (can obj1 method VUndefined) (VObj obj2) st = Normal (VNum answer) st
      /\ (answer = 0 \/ answer = 1)%Z
      /\ (answer = 1%Z <->
          exists f1 f2,
            get (heap st) obj1 method = VFun f1 /\ get (heap st) obj2 method = VFun f2
            /\ fn_length f1 = fn_length f2))
  /\ (forall f1 f2,
        get (heap st) obj1 method = VFun f1 -> get (heap st) obj2 method = VFun f2 ->
        fn_length f1 <> fn_length f2 ->
        like (can obj1 method VUndefined) (VObj obj2) st = Normal (VNum 0) st
        /\ like (can obj1 method (VNum 1)) (VObj obj2) st = Normal (VNum 0) st)
  /\ (forall f2,
        get (heap st) obj1 method = VUndefined -> get (heap st) obj2 method = VFun f2 ->
        like (can obj1 method (VNum 1)) (VObj obj2) st = Throw TypeError st).
Proof.
  split; [|split].
  - unfold like, valueOf, xor_not. simpl.
    destruct (get (heap st) obj1 method) as [| | | | | |f1|] eqn:H1; simpl;
      try (exists 0%Z; split; [done|]; split; [by left|];
           split; [done|]; by intros (? & ? & ? & _)).
    destruct (get (heap st) obj2 method) as [| | | | | |f2|] eqn:H2; simpl;
      try (exists 0%Z; split; [done|]; split; [by left|];
           split; [done|]; by intros (? & ? & _ & ? & _)).
    destruct (Nat.eqb_spec (fn_length f2) (fn_length f1)) as [Hsame|Hdiffer].
    + exists 1%Z. split; [done|]. split; [by right|]. split; [|done].
      intros _. by exists f1, f2.
    + exists 0%Z. split; [done|]. split; [by left|]. split; [done|].
      intros (g1 & g2 & [= <-] & [= <-] & Hsame). by destruct Hdiffer.
  - intros f1 f2 H1 H2 Hdiffer. unfold like, valueOf, xor_not. simpl.
    rewrite H1, H2. simpl.
    destruct (Nat.eqb_spec (fn_length f2) (fn_length f1)) as [Hsame|_]; [|done].
    by destruct Hdiffer.
  - intros f2 H1 H2. unfold like, valueOf, xor_not. simpl. by rewrite H1, H2.
Qed.

(** X20. [obj1.can(method).as(obj2)] is 1 exactly when [obj1] reads
    [method] as a function and [obj2] reads the same function.
    [obj1.cant(method).as(obj2)] is 0 when neither object has anything
    under [method]. *)
Theorem as_compares_functions obj1 obj2 method st :
  (exists answer,
      as_ (can obj1 method VUndefined) (VObj obj2) st = Normal (VNum answer) st
      /\ (answer = 1%Z <->
          typeof (get (heap st) obj1 method) = "function"
          /\ strict_eqb (get (heap st) obj1 method) (get (heap st) obj2 method) = true))
  /\ (get (heap st) obj1 method = VUndefined -> get (heap st) obj2 method = VUndefined ->
      as_ (can obj1 method (VNum 1)) (VObj obj2) st = Normal (VNum 0) st).
Proof.
  split.
  - unfold as_, valueOf, xor_not. simpl.
    destruct (typeof (get (heap st) obj1 method) =? "function") eqn:Hfunction; simpl.
    + apply String.eqb_eq in Hfunction.
      destruct (strict_eqb (get (heap st) obj1 method) (get (heap st) obj2 method)).
      * exists 1%Z. by repeat split.
      * exists 0%Z. split; [done|]. split; [done|]. by intros [_ ?].
    + apply String.eqb_neq in Hfunction.
      exists 0%Z. split; [done|]. split; [done|]. by intros [? _].
  - intros H1 H2. unfold as_, valueOf, xor_not. simpl. by rewrite H1, H2.
Qed.

(** [myObj1 = $object.clone({join: function(sep){}})],
    [myObj2 = $object.clone({join: function(){}})] and [plain = $object.clone()]
    in cells 2, 3 and 4. *)
Definition store_with_joiners : state :=
  let '(_, st) := derive dollar_object [method "join" (FUser "join(sep)" 1 [])] start in
  let '(_, st) := derive dollar_object [method "join" (FUser "join()" 0 [])] st in
  let '(_, st) := derive dollar_object [] st in
  st.

(** X18 at [myObj1.can('join')] and [myObj1.cant('join')]. *)
Lemma can_cant_valueOf_witness :
  exists unable,
    cant 2 "join" store_with_joiners = Normal unable store_with_joiners
    /\ valueOf (can 2 "join" VUndefined) store_with_joiners = Normal (VNum 1) store_with_joiners
    /\ valueOf unable store_with_joiners = Normal (VNum 0) store_with_joiners.
Proof.
  destruct (can_cant_valueOf 2 "join" store_with_joiners)
    as (unable & yes & no & Hcant & Hcan & Hunable & Hsum & Hyes);
    [vm_compute; reflexivity|].
  assert (yes = 1%Z) as -> by (apply Hyes; vm_compute; reflexivity).
  assert (no = 0%Z) as -> by lia.
  by exists unable.
Defined.

(** X19 at [myObj1.can('join').like(myObj2)], [myObj1.cant('join').like(myObj2)]
    and [plain.cant('join').like(myObj2)]. *)
Lemma like_compares_parameters_witness :
  like (can 2 "join" VUndefined) (VObj 3) store_with_joiners
  = Normal (VNum 0) store_with_joiners
  /\ like (can 2 "join" (VNum 1)) (VObj 3) store_with_joiners
     = Normal (VNum 0) store_with_joiners
  /\ like (can 4 "join" (VNum 1)) (VObj 3) store_with_joiners
     = Throw TypeError store_with_joiners.
Proof.
  destruct (proj1 (proj2 (like_compares_parameters 2 3 "join" store_with_joiners))
              (FUser "join(sep)" 1 []) (FUser "join()" 0 []))
    as [Hcan Hcant]; [vm_compute; reflexivity | vm_compute; reflexivity | simpl; lia |].
  split; [exact Hcan|]. split; [exact Hcant|].
  apply (proj2 (proj2 (like_compares_parameters 4 3 "join" store_with_joiners))
           (FUser "join()" 0 [])); vm_compute; reflexivity.
Defined.

(** X20 at [plain.cant('join').as(plain)]. *)
Lemma as_compares_functions_witness :
  as_ (can 4 "join" (VNum 1)) (VObj 4) store_with_joiners = Normal (VNum 0) store_with_joiners.
Proof.
  apply (proj2 (as_compares_functions 4 4 "join" store_with_joiners));
    vm_compute; reflexivity.
Defined.

(** ** [deepCopy] and [deepClone] *)

Lemma defineOwnProperty_other h h' target k a l :
  defineOwnProperty h target k a = Some h' -> l <> target -> h' !! l = h !! l.
Proof.
  unfold defineOwnProperty. intros Hdefine Hl.
  destruct (h !! target) as [to|]; [|done].
  destruct (lookup_own k (props to)).
  - destruct (admissible a p); [|done].
    injection Hdefine as <-. by rewrite list_lookup_insert_ne.
  - destruct (extensible to); [|done].
    injection Hdefine as <-. by rewrite list_lookup_insert_ne.
Qed.

(** An object none of whose own properties holds an object or [null]. *)
Definition flat (o : object_cell) : Prop :=
  forall n p, lookup_own n (props o) = Some p -> typeof (p_value p) <> "object".

Lemma flat_values o :
  Forall (fun np => typeof (p_value np.2) <> "object") (props o) -> flat o.
Proof.
  unfold flat. induction 1 as [|[m q] ps Hq _ IH]; intros n p; simpl; [done|].
  destruct (m =? n); [by intros [= <-]|]. apply IH.
Qed.

(** On a flat source the loop never calls the function for inner objects. *)
Lemma define_each_flat run f all source so target names : forall st,
  heap st !! source = Some so -> source <> target -> flat so ->
  (forall n, In n names -> is_Some (lookup_own n (props so))) ->
  define_each run (Some f) all source (VObj target) names st
  = if all then copy_own source target names st else Normal tt st.
Proof.
  intros st Hso Hne Hflat. revert st Hso.
  induction names as [|name names IH]; intros st Hso Hnames; [by destruct all|].
  assert (forall n, In n names -> is_Some (lookup_own n (props so))) as Hrest
    by (intros n Hn; apply Hnames; by right).
  destruct (Hnames name) as [p Hp]; [by left|].
  assert (define_each run (Some f) all source (VObj target) (name :: names) st
          = if all
            then let! (_u, st) := Object_defineProperty (VObj target) name (attributes_of p) st in
                 define_each run (Some f) all source (VObj target) names st
            else define_each run (Some f) all source (VObj target) names st) as ->.
  { simpl. unfold getOwnProperty. rewrite Hso, Hp.
    rewrite (get_own _ _ _ so p) by done.
    destruct (String.eqb_spec (typeof (p_value p)) "object") as [Hobject|_];
      [by apply Hflat in Hp|]. done. }
  destruct all; [|by apply IH].
  simpl. unfold getOwnProperty. rewrite Hso, Hp.
  destruct (defineOwnProperty (heap st) target name (attributes_of p)) as [h'|] eqn:Hdefine;
    simpl; [|done].
  apply IH; [|done]. simpl. by rewrite (defineOwnProperty_other _ _ _ _ _ _ Hdefine).
Qed.

(** [deepCopy()] on a flat object: the cell of the copy. *)
Lemma deepCopy_flat_cell run this o st :
  heap st !! this = Some o -> flat o ->
  exists copied,
    deepCopy run this [] st
    = Normal (VObj (List.length (heap st))) (with_heap st (heap st ++ [copied]))
    /\ proto copied = Some Object_prototype
    /\ forall n, lookup_own n (props copied) = lookup_own n (props o).
Proof.
  intros Ho Hflat. pose proof (lookup_lt_Some _ _ _ Ho) as Hlt.
  destruct (copy_own_fresh this o (Some Object_prototype) st Ho)
    as (copied & Hcopy & Hproto & _ & Hsame).
  exists copied. split; [|done].
  unfold deepCopy, Object_create, allocate. cbn [bind heap with_heap].
  assert (getOwnPropertyNames (heap st ++ [mkObject (Some Object_prototype) [] true]) this
          = getOwnPropertyNames (heap st) this) as ->.
  { unfold getOwnPropertyNames. by rewrite lookup_app_l. }
  rewrite (define_each_flat _ _ true this o).
  - unfold with_heap in *. simpl in *. by rewrite Hcopy.
  - simpl. by rewrite lookup_app_l.
  - lia.
  - done.
  - unfold getOwnPropertyNames. rewrite Ho. intros n. apply lookup_own_names.
Qed.

(** X21. [deepCopy()] of an object none of whose own properties holds an
    object: a new object under [Object.prototype], not under [$object] and
    not under the prototype of the receiver, with the own properties of the
    receiver and their attributes; it reads every own name of the receiver
    as the receiver does, and the receiver is left as it was. *)
Theorem deepCopy_flat run this o st :
  heap st !! this = Some o -> flat o ->
  exists copied st',
    deepCopy run this [] st = Normal (VObj (List.length (heap st))) st'
    /\ heap st' = heap st ++ [copied]
    /\ proto copied = Some Object_prototype
    /\ (forall n, lookup_own n (props copied) = lookup_own n (props o))
    /\ (forall n p, lookup_own n (props o) = Some p ->
          get (heap st') (List.length (heap st)) n = p_value p)
    /\ heap st' !! this = Some o.
Proof.
  intros Ho Hflat. pose proof (lookup_lt_Some _ _ _ Ho) as Hlt.
  destruct (deepCopy_flat_cell run this o st Ho Hflat) as (copied & Hcopy & Hproto & Hsame).
  exists copied, (with_heap st (heap st ++ [copied])).
  split; [done|]. split; [done|]. split; [done|]. split; [done|]. split.
  - intros n p Hp. simpl. apply (get_own _ _ _ copied).
    + by apply list_lookup_middle.
    + by rewrite Hsame.
  - simpl. by rewrite lookup_app_l.
Qed.

(** X21 at [source.deepCopy()], [source] holding [a] and [b] in cell 3. *)
Lemma deepCopy_flat_witness :
  exists copied st',
    deepCopy (call 0) 3 [] store_with_source = Normal (VObj 4) st'
    /\ proto copied = Some Object_prototype
    /\ lookup_own "a" (props copied) = Some (mkProperty (VNum 1) true true true)
    /\ get (heap st') 4 "a" = VNum 1.
Proof.
  destruct (deepCopy_flat (call 0) 3
              (mkObject (Some dollar_object)
                 [("a", mkProperty (VNum 1) true true true);
                  ("b", mkProperty (VNum 2) true true true)] true)
              store_with_source ltac:(vm_compute; reflexivity))
    as (copied & st' & Hcopy & _ & Hproto & Hsame & Hreads & _).
  - apply flat_values. by repeat constructor.
  - exists copied, st'. split; [exact Hcopy|]. split; [exact Hproto|].
    split; [by rewrite Hsame|].
    exact (Hreads "a" (mkProperty (VNum 1) true true true) eq_refl).
Defined.

(** X22. [deepClone()] of an object none of whose own properties holds an
    object is a plain clone: a new object under the receiver without own
    properties. *)
Theorem deepClone_flat fuel this o st :
  heap st !! this = Some o -> flat o ->
  get (heap st) this "clone" = VFun (FNative "clone") ->
  get (heap st) dollar_object "clone" = VFun (FNative "clone") ->
  deepClone (call (S fuel)) this [] st
  = Normal (VObj (List.length (heap st)))
      (with_heap st (heap st ++ [mkObject (Some this) [] true])).
Proof.
  intros Ho Hflat Htheirs Hours. pose proof (lookup_lt_Some _ _ _ Ho) as Hlt.
  unfold deepClone, do_. rewrite Htheirs, Hours, Nat.eqb_refl, call_clone, clone_no_arguments.
  cbn [bind].
  rewrite (define_each_flat _ _ false this o); try done.
  - simpl. by rewrite lookup_app_l.
  - lia.
  - unfold getOwnPropertyNames. simpl. rewrite lookup_app_l, Ho by done.
    intros n. apply lookup_own_names.
Qed.

(** X22 at [source.deepClone()], [source] holding [a] and [b] in cell 3. *)
Lemma deepClone_flat_witness :
  deepClone (call 1) 3 [] store_with_source
  = Normal (VObj 4)
      (with_heap store_with_source (heap store_with_source ++ [mkObject (Some 3) [] true])).
Proof.
  apply (deepClone_flat 0 3
           (mkObject (Some dollar_object)
              [("a", mkProperty (VNum 1) true true true);
               ("b", mkProperty (VNum 2) true true true)] true)
           store_with_source); try (vm_compute; reflexivity).
  apply flat_values. by repeat constructor.
Defined.

Lemma call_deepCopy fuel this arguments st :
  call (S fuel) (FNative "deepCopy") this arguments st = deepCopy (call fuel) this arguments st.
Proof. done. Qed.

Section DeepCopy.

Variable fuel : nat.
Variable this : loc.
Variable o : object_cell.
Variable base : list object_cell.

Hypothesis Hthis : base !! this = Some o.

(** Every own property of the receiver holds a value that is no object, or
    a flat object of the store. *)
Hypothesis Hshallow :
  forall n p, lookup_own n (props o) = Some p ->
    typeof (p_value p) <> "object"
    \/ exists inner io, p_value p = VObj inner /\ base !! inner = Some io /\ flat io.

(** The store while the loop runs: the cells of [base] are as they were,
    the next cell is the copy under construction. *)
Definition copying (s : state) (to : object_cell) : Prop :=
  (forall l, l < List.length base -> heap s !! l = base !! l)
  /\ heap s !! List.length base = Some to
  /\ extensible to = true.

(** The copy [q] of the property [p]: the attributes are kept; a value that
    is no object is kept, an object is replaced by a new object under
    [Object.prototype] with the same own properties. *)
Definition deep_copied (h : list object_cell) (p q : property) : Prop :=
  p_writable q = p_writable p /\ p_enumerable q = p_enumerable p
  /\ p_configurable q = p_configurable p
  /\ match p_value p with
     | VObj inner =>
         exists c cell io,
           p_value q = VObj c /\ List.length base < c
           /\ h !! c = Some cell /\ base !! inner = Some io
           /\ proto cell = Some Object_prototype
           /\ forall k, lookup_own k (props cell) = lookup_own k (props io)
     | v => p_value q = v
     end.

Lemma define_each_shallow names : forall s to,
  copying s to -> NoDup names ->
  (forall n, In n names -> lookup_own n (props to) = None) ->
  (forall n, In n names -> is_Some (lookup_own n (props o))) ->
  exists s' to',
    define_each (call (S fuel)) (Some (VFun (FNative "deepCopy"))) true this
      (VObj (List.length base)) names s
    = Normal tt s'
    /\ copying s' to'
    /\ (forall l cell, List.length base < l -> heap s !! l = Some cell ->
                       heap s' !! l = Some cell)
    /\ (forall n, ~ In n names -> lookup_own n (props to') = lookup_own n (props to))
    /\ (forall n p, In n names -> lookup_own n (props o) = Some p ->
          exists q, lookup_own n (props to') = Some q /\ deep_copied (heap s') p q).
Proof.
  pose proof (lookup_lt_Some _ _ _ Hthis) as Hlt.
  induction names as [|name names IH]; intros s to Hinv Hnodup Hfree Hnames.
  - exists s, to. simpl. repeat split; try done; apply Hinv.
  - destruct Hinv as (Hbase & Hto & Hext).
    apply NoDup_cons in Hnodup as [Hfirst Hnodup].
    destruct (Hnames name) as [p Hp]; [by left|].
    assert (heap s !! this = Some o) as Hso by (by rewrite Hbase).
    assert (List.length base < List.length (heap s)) as Hlen by (by eapply lookup_lt_Some).
    assert (forall q s1,
              heap s1 = <[List.length base :=
                            set_props to (store_own name q (props to))]> (heap s) ->
              copying s1 (set_props to (store_own name q (props to)))) as Hnext.
    { intros q s1 Hs1. split; [|split].
      - intros l Hl. rewrite Hs1, list_lookup_insert_ne by lia. by apply Hbase.
      - rewrite Hs1. by apply list_lookup_insert_eq.
      - done. }
    assert (forall q n, In n names ->
              lookup_own n (props (set_props to (store_own name q (props to)))) = None)
      as Hfree'.
    { intros q n Hn. simpl. rewrite lookup_own_store_own_ne.
      - apply Hfree. by right.
      - intros ->. apply Hfirst. by apply list_elem_of_In. }
    assert (forall n, In n names -> is_Some (lookup_own n (props o))) as Hnames'
      by (intros n Hn; apply Hnames; by right).
    cbn [define_each]. unfold getOwnProperty. rewrite Hso, Hp.
    rewrite (get_own _ _ _ o p) by done.
    destruct (Hshallow name p Hp) as [Hplain|(inner & io & Hvalue & Hinner & Hflat)].
    + destruct (String.eqb_spec (typeof (p_value p)) "object") as [?|_]; [done|].
      unfold Object_defineProperty, defineOwnProperty.
      rewrite Hto, (Hfree name) by (by left). rewrite Hext.
      rewrite fresh_property_attributes_of. cbn [bind].
      set (to1 := set_props to (store_own name p (props to))).
      set (s1 := with_heap s (<[List.length base := to1]> (heap s))).
      destruct (IH s1 to1) as (s' & to' & Hrun & Hinv' & Hkept & Hout & Hin);
        [by apply Hnext | done | by apply Hfree' | done |].
      exists s', to'. split; [done|]. split; [done|]. split; [|split].
      * intros l cell Hl Hcell. apply Hkept; [done|].
        unfold s1. simpl. by rewrite list_lookup_insert_ne by lia.
      * intros n Hn. rewrite Hout by (intros ?; apply Hn; by right).
        simpl. apply lookup_own_store_own_ne. intros ->. apply Hn. by left.
      * intros n p' [<-|Hn] Hp'; [|by apply Hin].
        rewrite Hp in Hp'. injection Hp' as <-.
        exists p. split.
        { rewrite Hout by (intros ?; apply Hfirst; by apply list_elem_of_In).
          simpl. apply lookup_own_store_own. }
        repeat split. by destruct (p_value p).
    + rewrite Hvalue. change (typeof (VObj inner) =? "object") with true. cbv iota.
      pose proof (lookup_lt_Some _ _ _ Hinner) as Hinner_lt.
      unfold apply. rewrite call_deepCopy.
      destruct (deepCopy_flat_cell (call fuel) inner io s) as (cell & -> & Hproto & Hsame);
        [by rewrite Hbase | done |].
      cbn [bind]. unfold Object_defineProperty, defineOwnProperty. simpl.
      rewrite lookup_app_l, Hto, (Hfree name) by (done || by left). rewrite Hext.
      cbn [bind].
      set (q := fresh_property
                  (mkAttributes (Some (VObj (List.length (heap s)))) (Some (p_writable p))
                     (Some (p_enumerable p)) (Some (p_configurable p)))).
      set (to1 := set_props to (store_own name q (props to))).
      set (s1 := with_heap (with_heap s (heap s ++ [cell]))
                   (<[List.length base := to1]> (heap s ++ [cell]))).
      assert (copying s1 to1) as Hinv1.
      { split; [|split]; [| |done].
        - intros l Hl. unfold s1. simpl.
          rewrite list_lookup_insert_ne, lookup_app_l by lia. by apply Hbase.
        - unfold s1. simpl. apply list_lookup_insert_eq. rewrite length_app. lia. }
      destruct (IH s1 to1) as (s' & to' & Hrun & Hinv' & Hkept & Hout & Hin);
        [done | done | by apply Hfree' | done |].
      exists s', to'. split; [done|]. split; [done|]. split; [|split].
      * intros l c Hl Hc. apply Hkept; [done|].
        unfold s1. simpl. rewrite list_lookup_insert_ne by lia.
        rewrite lookup_app_l; [done|]. by eapply lookup_lt_Some.
      * intros n Hn. rewrite Hout by (intros ?; apply Hn; by right).
        simpl. apply lookup_own_store_own_ne. intros ->. apply Hn. by left.
      * intros n p' [<-|Hn] Hp'; [|by apply Hin].
        rewrite Hp in Hp'. injection Hp' as <-.
        exists q. split.
        { rewrite Hout by (intros ?; apply Hfirst; by apply list_elem_of_In).
          simpl. apply lookup_own_store_own. }
        split; [done|]. split; [done|]. split; [done|]. rewrite Hvalue.
        exists (List.length (heap s)), cell, io.
        split; [done|]. split; [done|]. split; [|done].
        apply Hkept; [done|]. unfold s1. simpl.
        rewrite list_lookup_insert_ne by lia. by apply list_lookup_middle.
Qed.

End DeepCopy.

(** X23. [deepCopy()] of an object whose own properties hold values that
    are no objects, or flat objects: the copy reads the former as the
    receiver does, and for each of the latter a new object, not the one the
    receiver holds, with the same own properties. *)
Theorem deepCopy_copies_inner fuel this o st :
  heap st !! this = Some o -> NoDup (props o).*1 ->
  (forall n p, lookup_own n (props o) = Some p ->
     typeof (p_value p) <> "object"
     \/ exists inner io, p_value p = VObj inner /\ heap st !! inner = Some io /\ flat io) ->
  exists st',
    deepCopy (call (S fuel)) this [] st = Normal (VObj (List.length (heap st))) st'
    /\ forall n p, lookup_own n (props o) = Some p ->
         match p_value p with
         | VObj inner =>
             exists c,
               c <> inner
               /\ get (heap st') (List.length (heap st)) n = VObj c
               /\ forall k, getOwnProperty (heap st') c k = getOwnProperty (heap st) inner k
         | v => get (heap st') (List.length (heap st)) n = v
         end.
Proof.
  intros Ho Hnodup Hshallow. pose proof (lookup_lt_Some _ _ _ Ho) as Hlt.
  unfold deepCopy, Object_create, allocate. cbn [bind heap with_heap].
  set (fresh := mkObject (Some Object_prototype) [] true).
  assert (getOwnPropertyNames (heap st ++ [fresh]) this = (props o).*1) as ->.
  { unfold getOwnPropertyNames. by rewrite lookup_app_l, Ho. }
  destruct (define_each_shallow fuel this o (heap st) Ho Hshallow ((props o).*1)
              (with_heap st (heap st ++ [fresh])) fresh)
    as (st' & to' & -> & (_ & Hto' & _) & _ & _ & Hin).
  - split; [|split]; [| |done].
    + intros l Hl. simpl. by rewrite lookup_app_l.
    + simpl. by apply list_lookup_middle.
  - done.
  - done.
  - intros n. apply lookup_own_names.
  - exists st'. split; [done|]. intros n p Hp.
    destruct (Hin n p (lookup_own_In _ _ _ Hp) Hp)
      as (q & Hq & _ & _ & _ & Hvalue).
    rewrite (get_own _ _ _ to' q) by done.
    destruct (p_value p) as [| | | | | | |inner]; try done.
    destruct Hvalue as (c & cell & io & -> & Hc & Hcell & Hio & _ & Hsame).
    exists c. split; [|split; [done|]].
    + apply lookup_lt_Some in Hio. lia.
    + intros k. unfold getOwnProperty. by rewrite Hcell, Hio.
Qed.

Lemma lookup_own_member n p ps : lookup_own n ps = Some p -> In (n, p) ps.
Proof.
  induction ps as [|[m q] ps IH]; simpl; [done|].
  destruct (String.eqb_spec m n) as [->|]; [intros [= ->]; by left|]. right. auto.
Qed.

(** [nested = {deep: 1}] in cell 2 and [source], holding [a: nested] and
    [n: 7], in cell 3. *)
Definition store_with_nested : state :=
  let '(nested, st) := literal [("deep", VNum 1)] start in
  (derive dollar_object
     [("a", mkProperty (VObj nested) true true true);
      ("n", mkProperty (VNum 7) true true true)] st).2.

(** X23 at [source.deepCopy()]. *)
Lemma deepCopy_copies_inner_witness :
  exists st' c,
    deepCopy (call 1) 3 [] store_with_nested = Normal (VObj 4) st'
    /\ get (heap st') 4 "n" = VNum 7
    /\ get (heap st') 4 "a" = VObj c
    /\ c <> 2
    /\ getOwnProperty (heap st') c "deep" = Some (mkProperty (VNum 1) true true true).
Proof.
  destruct (deepCopy_copies_inner 0 3
              (mkObject (Some dollar_object)
                 [("a", mkProperty (VObj 2) true true true);
                  ("n", mkProperty (VNum 7) true true true)] true)
              store_with_nested)
    as (st' & Hcopy & Hreads).
  - vm_compute. reflexivity.
  - apply (bool_decide_unpack _). by vm_compute.
  - intros n p Hp.
    assert (p = mkProperty (VObj 2) true true true \/ p = mkProperty (VNum 7) true true true)
      as [->| ->].
    { apply lookup_own_member in Hp as [[= _ <-]|[[= _ <-]|[]]]; [by left|by right]. }
    + right. exists 2, (mkObject (Some Object_prototype)
                          [("deep", mkProperty (VNum 1) true true true)] true).
      split; [done|]. split; [vm_compute; reflexivity|].
      apply flat_values. by repeat constructor.
    + by left.
  - pose proof (Hreads "a" (mkProperty (VObj 2) true true true) eq_refl)
      as (c & Hc & Ha & Hsame).
    pose proof (Hreads "n" (mkProperty (VNum 7) true true true) eq_refl) as Hn.
    exists st', c. split; [exact Hcopy|]. split; [exact Hn|]. split; [exact Ha|].
    split; [exact Hc|]. by rewrite Hsame.
Defined.

(** ** [clone] with properties *)





